(** * django-castor: a content-addressable storage backend

    A shallow embedding of [djcastor/utils.py] and [djcastor/storage.py],
    with the properties of the sharding scheme, the digest engine and the
    save / delete life cycle of [CAStorage]. *)

From Stdlib Require Import ZArith List Ascii String Lia.
From stdpp Require Import base tactics option list gmap strings.

Local Open Scope Z_scope.

(** * Part I: the model *)

(** ** Python values *)

(** A Python [str] is a sequence of characters. *)
Abbreviation str := (list ascii).

(** A Python [bytes] object. *)
Abbreviation bytes := (list Byte.byte).

(** String literals of the source. *)
Definition lit (s : string) : str := list_ascii_of_string s.

(** The exception classes the code can meet. *)
Inductive exn : Set :=
  | AttributeError
  | TypeError
  | ValueError
  | UnicodeDecodeError
  | SuspiciousOperation
  | SuspiciousFileOperation
  | OSError
  | FileNotFoundError
  | NotADirectoryError
  | IsADirectoryError
  | FileExistsError
  | PermissionError.

#[global] Instance exn_eq_dec : EqDecision exn.
Proof. solve_decision. Defined.

(** The direct base class, where it is one of the classes above. *)
Definition base_class (e : exn) : option exn :=
  match e with
  | UnicodeDecodeError => Some ValueError
  | SuspiciousFileOperation => Some SuspiciousOperation
  | FileNotFoundError | NotADirectoryError | IsADirectoryError
  | FileExistsError | PermissionError => Some OSError
  | _ => None
  end.

(** [isinstance(e, cls)], which is what an [except cls] clause tests. *)
Definition isinstance (e cls : exn) : bool :=
  bool_decide (e = cls) ||
  match base_class e with
  | Some b => bool_decide (b = cls)
  | None => false
  end.

(** The outcome of a call: a value, a raised exception, or the exhaustion
    of the step budget of a modelled [while] loop (never a Python outcome;
    the theorems show it does not arise). *)
Inductive result (A : Type) : Type :=
  | Ok (a : A)
  | Raise (e : exn)
  | OutOfFuel.
Arguments Ok {A} a.
Arguments Raise {A} e.
Arguments OutOfFuel {A}.

Module Py.

(** Index adjustment of a slice bound against a sequence of length [len]:
    a negative bound counts from the end, and every bound is clamped to
    [0 .. len]. *)
Definition adjust_index (len i : Z) : Z :=
  if i <? 0 then Z.max 0 (i + len) else Z.min i len.

(** [s[start:stop]] *)
Definition slice {A} (s : list A) (start stop : Z) : list A :=
  let n := Z.of_nat (length s) in
  let lo := adjust_index n start in
  let hi := adjust_index n stop in
  take (Z.to_nat (hi - lo)) (drop (Z.to_nat lo) s).

(** [s[start:]] *)
Definition slice_from {A} (s : list A) (start : Z) : list A :=
  drop (Z.to_nat (adjust_index (Z.of_nat (length s)) start)) s.

(** [s[:stop]] *)
Definition slice_to {A} (s : list A) (stop : Z) : list A :=
  take (Z.to_nat (adjust_index (Z.of_nat (length s)) stop)) s.

(** [range(n)]: empty when [n <= 0]. *)
Definition range (n : Z) : list Z := seqZ 0 n.

(** [s.startswith(prefix)] *)
Fixpoint startswith (s prefix : str) : bool :=
  match prefix, s with
  | [], _ => true
  | p :: prefix', c :: s' =>
      if decide (c = p) then startswith s' prefix' else false
  | _ :: _, [] => false
  end.

(** [s.endswith(c)] for a one-character [c]. *)
Definition endswith (s : str) (c : ascii) : bool :=
  bool_decide (last s = Some c).

(** [s.rfind(c)] for a one-character [c]: the highest index where [c]
    occurs, or [-1]. *)
Fixpoint rfind_from (i : Z) (s : str) (c : ascii) : Z :=
  match s with
  | [] => -1
  | x :: s' =>
      let r := rfind_from (i + 1) s' c in
      if 0 <=? r then r else if decide (x = c) then i else -1
  end.
Definition rfind (s : str) (c : ascii) : Z := rfind_from 0 s c.

(** [s.rstrip(c)] for a one-character [c]. *)
Fixpoint rstrip (s : str) (c : ascii) : str :=
  match s with
  | [] => []
  | x :: s' =>
      match rstrip s' c with
      | [] => if decide (x = c) then [] else [x]
      | r => x :: r
      end
  end.

(** [s.split(c)] for a one-character [c]: never empty. *)
Fixpoint split (s : str) (c : ascii) : list str :=
  match s with
  | [] => [[]]
  | x :: s' =>
      if decide (x = c) then [] :: split s' c
      else match split s' c with
           | [] => [[x]]
           | w :: ws => (x :: w) :: ws
           end
  end.

(** [c.join(parts)] for a one-character [c]. *)
Fixpoint join (c : ascii) (parts : list str) : str :=
  match parts with
  | [] => []
  | [p] => p
  | p :: rest => p ++ c :: join c rest
  end.

(** The attributes of [str] objects ([dir(str)] without the dunder
    names): what [getattr] on a [str] can find. *)
Definition str_attributes : list string :=
  [ "capitalize"; "casefold"; "center"; "count"; "encode"; "endswith";
    "expandtabs"; "find"; "format"; "format_map"; "index"; "isalnum";
    "isalpha"; "isascii"; "isdecimal"; "isdigit"; "isidentifier";
    "islower"; "isnumeric"; "isprintable"; "isspace"; "istitle";
    "isupper"; "join"; "ljust"; "lower"; "lstrip"; "maketrans";
    "partition"; "removeprefix"; "removesuffix"; "replace"; "rfind";
    "rindex"; "rjust"; "rpartition"; "rsplit"; "rstrip"; "split";
    "splitlines"; "startswith"; "strip"; "swapcase"; "title";
    "translate"; "upper"; "zfill" ]%string.

(** A method of a [str] object, bound to it. *)
Inductive bound_method : Type := BoundMethod (self : str) (name : string).

(** What an attribute access [obj.attr] on a [str] object evaluates to:
    a bound method for the names above, and [AttributeError] for every
    other name (a dunder name is never asked for here). *)
Definition str_getattr (obj : str) (attr : string) : result bound_method :=
  if bool_decide (attr ∈ str_attributes)
  then Ok (BoundMethod obj attr)
  else Raise AttributeError.

End Py.

(** ** The file system *)

(** A directory tree without links.  A node is named by its location: the
    names on the way from the top directory down to it.  Since there are no
    hard links to directories and no symbolic links in the model, the
    location identifies the node the way the pair (device, inode) does. *)
Abbreviation loc := (list str).

Inductive node : Type :=
  | Dir
  | Reg (content : bytes).

#[global] Instance byte_eq_dec : EqDecision Byte.byte := Byte.byte_eq_dec.

#[global] Instance node_eq_dec : EqDecision node.
Proof. solve_decision. Defined.

(** The physical changes made to the tree, newest first. *)
Inductive event : Type :=
  | Wrote (l : loc)
  | MadeDir (l : loc)
  | Unlinked (l : loc)
  | RemovedDir (l : loc).

(** The state of the machine: the tree, the working directory of the
    process, the text layer, and the log.  The text layer tells what the
    successive calls [read(size)] return on a file opened in text mode, for
    the bytes the file holds: the strings read, one call after the other,
    and the exception the next call raises when the bytes it has to decode
    are not valid text in the encoding of the locale ([None] when the end
    of the file is reached without that).  What has been read before a
    failing call has been returned to the caller. *)
Record fs : Type := Fs {
  nodes : gmap loc node;
  cwd : loc;
  text_read : bytes -> Z -> list str * option exn;
  log : list event;
}.

(** The same machine with another tree and one more logged event. *)
Definition changed (s : fs) (m : gmap loc node) (e : event) : fs :=
  Fs m (cwd s) (text_read s) (e :: log s).

Definition is_write (e : event) : bool :=
  match e with Wrote _ => true | _ => false end.

(** Number of physical file writes so far. *)
Definition writes (s : fs) : nat := length (List.filter is_write (log s)).

(** Calls that read and change the file system, and may raise. *)
Definition M (A : Type) : Type := fs -> result A * fs.

Definition ret {A} (a : A) : M A := fun s => (Ok a, s).
Definition raise {A} (e : exn) : M A := fun s => (Raise e, s).
Definition bind {A B} (c : M A) (k : A -> M B) : M B :=
  fun s =>
    match c s with
    | (Ok a, s') => k a s'
    | (Raise e, s') => (Raise e, s')
    | (OutOfFuel, s') => (OutOfFuel, s')
    end.
(** A call that only reads the file system. *)
Definition reading {A} (f : fs -> result A) : M A := fun s => (f s, s).

Declare Scope cas_scope.
Delimit Scope cas_scope with cas.
Notation "'let*' x ':=' c 'in' k" := (bind c (fun x => k))
  (at level 10, x name, c at level 100, k at level 200) : cas_scope.
Notation "c ';;' k" := (bind c (fun _ => k))
  (at level 100, k at level 200, right associativity) : cas_scope.
Local Open Scope cas_scope.

Module Fs.

Definition parent (l : loc) : loc := removelast l.

(** Path resolution: the walk over the components of a path from a
    starting directory.  An empty component or [.] stays, [..] goes to
    the parent (the top directory is its own parent), a name goes down;
    every step needs the current node to be a directory. *)
Fixpoint walk (m : gmap loc node) (cur : loc) (comps : list str)
  : result loc :=
  match comps with
  | [] => Ok cur
  | c :: rest =>
      match m !! cur with
      | None => Raise FileNotFoundError
      | Some (Reg _) => Raise NotADirectoryError
      | Some Dir =>
          if decide (c = [] \/ c = lit ".") then walk m cur rest
          else if decide (c = lit "..") then walk m (parent cur) rest
          else match m !! (cur ++ [c]) with
               | None => Raise FileNotFoundError
               | Some _ => walk m (cur ++ [c]) rest
               end
      end
  end.

(** The location a path names; the empty path names nothing. *)
Definition resolve (s : fs) (p : str) : result loc :=
  match p with
  | [] => Raise FileNotFoundError
  | _ =>
      walk (nodes s)
           (if Py.startswith p (lit "/") then [] else cwd s)
           (Py.split p "/")
  end.

(** The names in the directory at [d]. *)
Definition entries (m : gmap loc node) (d : loc) : list str :=
  omap (fun k : loc =>
          if decide (removelast k = d) then last k else None)
       (elements (dom m)).

(** What [os.stat] tells: the identity of the node and its kind. *)
Record stat_result : Type := StatResult {
  st_ino : loc;
  st_isdir : bool;
}.

(** [os.stat(p)] *)
Definition stat (p : str) : M stat_result :=
  reading (fun s =>
    match resolve s p with
    | Ok l =>
        match nodes s !! l with
        | Some Dir => Ok (StatResult l true)
        | Some (Reg _) => Ok (StatResult l false)
        | None => Raise FileNotFoundError
        end
    | Raise e => Raise e
    | OutOfFuel => OutOfFuel
    end).

(** [os.unlink(p)]: removes a file, refuses a directory. *)
Definition unlink (p : str) : M unit :=
  fun s =>
    match resolve s p with
    | Ok l =>
        match nodes s !! l with
        | Some (Reg _) =>
            (Ok tt, changed s (delete l (nodes s)) (Unlinked l))
        | Some Dir => (Raise IsADirectoryError, s)
        | None => (Raise FileNotFoundError, s)
        end
    | Raise e => (Raise e, s)
    | OutOfFuel => (OutOfFuel, s)
    end.

(** [os.listdir(p)] *)
Definition listdir (p : str) : M (list str) :=
  reading (fun s =>
    match resolve s p with
    | Ok l =>
        match nodes s !! l with
        | Some Dir => Ok (entries (nodes s) l)
        | Some (Reg _) => Raise NotADirectoryError
        | None => Raise FileNotFoundError
        end
    | Raise e => Raise e
    | OutOfFuel => OutOfFuel
    end).

(** [os.rmdir(p)]: removes an empty directory; the top directory cannot
    be removed (it is busy), nor can a directory that is not empty. *)
Definition rmdir (p : str) : M unit :=
  fun s =>
    match resolve s p with
    | Ok l =>
        match nodes s !! l with
        | Some Dir =>
            match l, entries (nodes s) l with
            | [], _ => (Raise OSError, s)
            | _ :: _, [] =>
                (Ok tt, changed s (delete l (nodes s)) (RemovedDir l))
            | _ :: _, _ :: _ => (Raise OSError, s)
            end
        | Some (Reg _) => (Raise NotADirectoryError, s)
        | None => (Raise FileNotFoundError, s)
        end
    | Raise e => (Raise e, s)
    | OutOfFuel => (OutOfFuel, s)
    end.

(** Creation of the directories on the way down to [l] that are missing
    ([os.makedirs(..., exist_ok=True)]), from the top: [done] is the part
    of the way already checked. *)
Fixpoint makedirs_from (done : loc) (todo : list str) : M unit :=
  match todo with
  | [] => ret tt
  | c :: rest =>
      let d := done ++ [c] in
      (fun s =>
         match nodes s !! d with
         | Some Dir => (Ok tt, s)
         | Some (Reg _) => (Raise FileExistsError, s)
         | None =>
             (Ok tt, changed s (<[d := Dir]> (nodes s)) (MadeDir d))
         end) ;;
      makedirs_from d rest
  end.

(** The write of a whole file at [l], moved into place in one step. *)
Definition write_at (l : loc) (data : bytes) : M unit :=
  fun s =>
    match nodes s !! removelast l, nodes s !! l with
    | Some Dir, Some Dir => (Raise IsADirectoryError, s)
    | Some Dir, _ =>
        match l with
        | [] => (Raise IsADirectoryError, s)
        | _ => (Ok tt, changed s (<[l := Reg data]> (nodes s)) (Wrote l))
        end
    | Some (Reg _), _ => (Raise NotADirectoryError, s)
    | None, _ => (Raise FileNotFoundError, s)
    end.

End Fs.

(** ** [os.path] (the POSIX flavour, imported as [os_path]) *)

Module os_path.

Definition sep : ascii := "/"%char.
Definition extsep : ascii := "."%char.

(** [os.getcwd()]: the working directory as an absolute path. *)
Definition getcwd (s : fs) : str :=
  match cwd s with
  | [] => [sep]
  | l => sep :: Py.join sep l
  end.

Definition isabs (p : str) : bool := Py.startswith p [sep].

(** One step of [join]'s loop over the further components. *)
Definition join_step (path b : str) : str :=
  if Py.startswith b [sep] || bool_decide (path = []) then b
  else if Py.endswith path sep then path ++ b
  else path ++ sep :: b.

(** [os.path.join(a, *p)] *)
Definition join (a : str) (p : list str) : str := fold_left join_step p a.

(** One step of [normpath]'s loop over the components. *)
Definition normpath_step (initial_slashes : nat) (new_comps : list str)
    (comp : str) : list str :=
  if decide (comp = [] \/ comp = lit ".") then new_comps
  else if bool_decide (comp <> lit "..")
          || (bool_decide (initial_slashes = 0%nat)
              && bool_decide (new_comps = []))
          || bool_decide (last new_comps = Some (lit ".."))
       then new_comps ++ [comp]
       else removelast new_comps.

(** The number of leading separators [normpath] keeps: POSIX allows one
    or two initial slashes, but treats three or more as a single slash. *)
Definition initial_slashes (path : str) : nat :=
  if Py.startswith path [sep] then
    if Py.startswith path [sep; sep]
       && negb (Py.startswith path [sep; sep; sep])
    then 2%nat else 1%nat
  else 0%nat.

(** [os.path.normpath(path)] *)
Definition normpath (path : str) : str :=
  match path with
  | [] => lit "."
  | _ =>
      let comps := Py.split path sep in
      let new_comps :=
        fold_left (normpath_step (initial_slashes path)) comps [] in
      let path' :=
        repeat sep (initial_slashes path) ++ Py.join sep new_comps in
      match path' with
      | [] => lit "."
      | _ => path'
      end
  end.

(** [os.path.abspath(path)] *)
Definition abspath (s : fs) (path : str) : str :=
  if isabs path then normpath path
  else normpath (join (getcwd s) [path]).

(** [os.path.dirname(p)] *)
Definition dirname (p : str) : str :=
  let i := Py.rfind p sep + 1 in
  let head := Py.slice_to p i in
  if bool_decide (head <> []) && bool_decide (head <> repeat sep (length head))
  then Py.rstrip head sep
  else head.

(** The scan of [splitext] over the characters between the last
    separator and the last dot: the extension is split off at the first
    of them that is not a dot. *)
Fixpoint splitext_scan (p : str) (dotIndex : Z) (indices : list Z)
  : option (str * str) :=
  match indices with
  | [] => None
  | filenameIndex :: rest =>
      if bool_decide (Py.slice p filenameIndex (filenameIndex + 1)
                      <> [extsep])
      then Some (Py.slice_to p dotIndex, Py.slice_from p dotIndex)
      else splitext_scan p dotIndex rest
  end.

(** [os.path.splitext(p)] *)
Definition splitext (p : str) : str * str :=
  let sepIndex := Py.rfind p sep in
  let dotIndex := Py.rfind p extsep in
  let unsplit := (p, Py.slice_to p 0) in
  if sepIndex <? dotIndex then
    match splitext_scan p dotIndex
            (seqZ (sepIndex + 1) (dotIndex - (sepIndex + 1))) with
    | Some r => r
    | None => unsplit
    end
  else unsplit.

(** [os.path.samestat(s1, s2)]: the same node. *)
Definition samestat (s1 s2 : Fs.stat_result) : bool :=
  bool_decide (Fs.st_ino s1 = Fs.st_ino s2).

(** [os.path.exists(path)]: whether [os.stat] succeeds; an [OSError]
    or [ValueError] from it means no. *)
Definition exists_ (path : str) : M bool :=
  fun s =>
    match Fs.stat path s with
    | (Ok _, s') => (Ok true, s')
    | (Raise e, s') =>
        if isinstance e OSError || isinstance e ValueError
        then (Ok false, s') else (Raise e, s')
    | (OutOfFuel, s') => (OutOfFuel, s')
    end.

End os_path.

(** ** [hashlib] *)

(** The interface of a hash object: [digestmod()] makes a fresh one,
    [update] feeds it bytes, [hexdigest] reads the digest.  The two laws are
    hashlib's contract for [update]: repeated calls are equivalent to a
    single call with the concatenation of the arguments. *)
Class HashAlgorithm : Type := {
  hash_state : Type;
  hash_new : hash_state;
  hash_update : hash_state -> bytes -> hash_state;
  hash_hexdigest : hash_state -> str;
  hash_update_nil : forall h, hash_update h [] = h;
  hash_update_app : forall h a b,
    hash_update (hash_update h a) b = hash_update h (a ++ b);
}.

(** What a chunk iterator yields: [bytes] from a file read in binary mode,
    [str] from one read in text mode. *)
Inductive chunk : Type :=
  | Bytes (b : bytes)
  | Text (t : str).

(** SHA-1 (FIPS 180-4), the default [digestmod]. *)
Module SHA1.

Definition w32 (x : Z) : Z := x mod 2 ^ 32.
Definition rotl (n x : Z) : Z :=
  w32 (Z.lor (Z.shiftl x n) (Z.shiftr x (32 - n))).

Definition byte_val (b : Byte.byte) : Z := Z.of_N (Byte.to_N b).

(** The big-endian bytes of [x], [n] of them. *)
Fixpoint be_bytes (n : nat) (x : Z) : list Z :=
  match n with
  | O => []
  | S n' => be_bytes n' (x / 256) ++ [x mod 256]
  end.

(** Padding: a one bit, zeros up to 56 modulo 64, the bit length. *)
Definition pad (msg : list Z) : list Z :=
  let len := Z.of_nat (length msg) in
  msg ++ [128] ++ repeat 0 (Z.to_nat ((55 - len) mod 64))
      ++ be_bytes 8 (8 * len).

Fixpoint words (bs : list Z) : list Z :=
  match bs with
  | a :: b :: c :: d :: rest =>
      (a * 2 ^ 24 + b * 2 ^ 16 + c * 2 ^ 8 + d) :: words rest
  | _ => []
  end.

(** The message schedule, newest word first. *)
Fixpoint expand (n : nat) (ws : list Z) : list Z :=
  match n with
  | O => ws
  | S n' =>
      let w := rotl 1 (Z.lxor (Z.lxor (nth 2 ws 0) (nth 7 ws 0))
                              (Z.lxor (nth 13 ws 0) (nth 15 ws 0))) in
      expand n' (w :: ws)
  end.

Definition state : Type := Z * Z * Z * Z * Z.

Definition round (st : state) (tw : nat * Z) : state :=
  let '(a, b, c, d, e) := st in
  let '(t, w) := tw in
  let '(f, k) :=
    if (t <? 20)%nat
    then (Z.lor (Z.land b c) (Z.land (Z.lxor b 4294967295) d), 1518500249)
    else if (t <? 40)%nat
    then (Z.lxor (Z.lxor b c) d, 1859775393)
    else if (t <? 60)%nat
    then (Z.lor (Z.lor (Z.land b c) (Z.land b d)) (Z.land c d), 2400959708)
    else (Z.lxor (Z.lxor b c) d, 3395469782) in
  (w32 (rotl 5 a + f + e + k + w), a, rotl 30 b, c, d).

Definition compress (h : state) (block : list Z) : state :=
  let ws := rev (expand 64 (rev block)) in
  let '(a, b, c, d, e) := fold_left round (combine (seq 0 80) ws) h in
  let '(h0, h1, h2, h3, h4) := h in
  (w32 (h0 + a), w32 (h1 + b), w32 (h2 + c), w32 (h3 + d), w32 (h4 + e)).

Fixpoint blocks (n : nat) (ws : list Z) (h : state) : state :=
  match n with
  | O => h
  | S n' => blocks n' (drop 16 ws) (compress h (take 16 ws))
  end.

Definition initial : state :=
  (1732584193, 4023233417, 2562383102, 271733878, 3285377520).

Definition hex_digit (x : Z) : ascii :=
  nth (Z.to_nat x) (lit "0123456789abcdef") "0"%char.

Definition hex_word (x : Z) : str :=
  map (fun i => hex_digit ((x / 16 ^ i) mod 16)) [7; 6; 5; 4; 3; 2; 1; 0].

Definition hexdigest (msg : bytes) : str :=
  let ws := words (pad (map byte_val msg)) in
  let '(h0, h1, h2, h3, h4) :=
    blocks (length ws / 16)%nat ws initial in
  hex_word h0 ++ hex_word h1 ++ hex_word h2 ++ hex_word h3 ++ hex_word h4.

End SHA1.

(** The hash object of [hashlib.sha1]: it has seen the bytes fed so far. *)
#[global, refine] Instance sha1 : HashAlgorithm := {|
  hash_state := bytes;
  hash_new := [];
  hash_update h b := h ++ b;
  hash_hexdigest := SHA1.hexdigest;
|}.
Proof.
  - intros h. apply app_nil_r.
  - intros h a b. symmetry. apply app_assoc.
Defined.

(** ** [django.core.files.File] *)

(** An uploaded file: the chunks its [chunks()] yields, the path of the
    temporary file behind it when it has one (then the object has the
    attribute [temporary_file_path]), and its read position. *)
Record File : Type := {
  temporary_file_path : option str;
  file_chunks : list bytes;
  file_position : Z;
}.

(** [UploadedFile.DEFAULT_CHUNK_SIZE] *)
Definition DEFAULT_CHUNK_SIZE : Z := 64 * 2 ^ 10.

(** [content.seek(0)] *)
Definition seek0 (content : File) : File :=
  {| temporary_file_path := temporary_file_path content;
     file_chunks := file_chunks content;
     file_position := 0 |}.

(** [content.chunks()], read to the end. *)
Definition chunks (content : File) : list chunk * File :=
  (Bytes <$> file_chunks content,
   {| temporary_file_path := temporary_file_path content;
      file_chunks := file_chunks content;
      file_position := Z.of_nat (length (concat (file_chunks content))) |}).

(** A sequence cut into pieces of [n] elements ([n > 0]), the way
    [File.chunks] reads until a read returns nothing. *)
Fixpoint pieces {A} (fuel : nat) (n : nat) (s : list A) : list (list A) :=
  match fuel, s with
  | S fuel', _ :: _ => take n s :: pieces fuel' n (drop n s)
  | _, _ => []
  end.

(** The outcome of a computation that does not touch the file system,
    as a call. *)
Definition lift {A} (r : result A) : M A := fun s => (r, s).

(** ** djcastor/utils.py *)

Module utils.

Section hashing.
Context {digestmod : HashAlgorithm}.

(** [digest.update(chunk)]: hashlib takes bytes and refuses a [str]
    with a [TypeError]. *)
Definition update (digest : hash_state) (c : chunk) : result hash_state :=
  match c with
  | Bytes b => Ok (hash_update digest b)
  | Text _ => Raise TypeError
  end.

(** [for chunk in iterator: digest.update(chunk)] *)
Fixpoint feed (digest : hash_state) (iterator : list chunk)
  : result hash_state :=
  match iterator with
  | [] => Ok digest
  | c :: rest =>
      match update digest c with
      | Ok digest' => feed digest' rest
      | Raise e => Raise e
      | OutOfFuel => OutOfFuel
      end
  end.

(** [hash_chunks(iterator, digestmod)] *)
Definition hash_chunks (iterator : list chunk) : result str :=
  match feed hash_new iterator with
  | Ok digest => Ok (hash_hexdigest digest)
  | Raise e => Raise e
  | OutOfFuel => OutOfFuel
  end.

(** The loop of [File.chunks] over the reads of a file opened in text
    mode: the chunks the generator yields, and the exception it raises
    after them, if it does.
<<
    while True:
        data = self.read(chunk_size)
        if not data:
            break
        yield data
>> *)
Fixpoint chunks_loop (reads : list str) (failure : option exn)
  : list chunk * option exn :=
  match reads with
  | [] => ([], failure)
  | [] :: _ => ([], None)
  | data :: rest =>
      let '(yielded, e) := chunks_loop rest failure in
      (Text data :: yielded, e)
  end.

(** [File(open(filename)).chunks(chunk_size)], with
    [chunk_size = chunk_size or self.DEFAULT_CHUNK_SIZE]: the file is
    open in text mode, so the chunks are [str] values. *)
Definition text_chunks (s : fs) (content : bytes) (chunk_size : Z)
  : list chunk * option exn :=
  let size := if chunk_size =? 0 then DEFAULT_CHUNK_SIZE else chunk_size in
  let '(reads, failure) := text_read s content size in
  chunks_loop reads failure.

(** [hash_filename(filename, digestmod, chunk_size)].  The generator is
    consumed by the loop of [hash_chunks] one chunk at a time: an
    exception the generator raises after some chunks is met only when
    [update] has taken all of them.
<<
    fileobj = File(open(filename))
    try:
        return hash_chunks(fileobj.chunks(chunk_size=chunk_size), digestmod)
    finally:
        fileobj.close()
>> *)
Definition hash_filename (filename : str) (chunk_size : Z) : M str :=
  reading (fun s =>
    match Fs.resolve s filename with
    | Ok l =>
        match nodes s !! l with
        | Some (Reg content) =>
            let '(iterator, failure) := text_chunks s content chunk_size in
            match hash_chunks iterator, failure with
            | Ok d, None => Ok d
            | Ok _, Some e => Raise e
            | Raise e, _ => Raise e
            | OutOfFuel, _ => OutOfFuel
            end
        | Some Dir => Raise IsADirectoryError
        | None => Raise FileNotFoundError
        end
    | Raise e => Raise e
    | OutOfFuel => OutOfFuel
    end).

End hashing.

(** [shard(string, width, depth, rest_only)]: the generator is modelled
    by the list of the values it yields, in order.
<<
    for i in range(depth):
        yield string[(width * i):(width * (i + 1))]
    if rest_only:
        yield string[(width * depth):]
    else:
        yield string
>> *)
Definition shard (string : str) (width depth : Z) (rest_only : bool)
  : list str :=
  map (fun i => Py.slice string (width * i) (width * (i + 1)))
      (Py.range depth)
  ++ [if rest_only then Py.slice_from string (width * depth) else string].

(** Truth value of [root : str | None]. *)
Definition truthy (root : option str) : bool :=
  match root with
  | Some (_ :: _) => true
  | _ => false
  end.

(** The condition of the [while]:
    [not (root and path.samestat(root_stat, stat(directory)))].
    [samestat] on the [None] that [root_stat] holds when [root] is false
    would raise; the [and] never gets there. *)
Definition keep_pruning (root : option str)
    (root_stat : option Fs.stat_result) (directory : str) : M bool :=
  if truthy root then
    let* st := Fs.stat directory in
    match root_stat with
    | Some rs => ret (negb (os_path.samestat rs st))
    | None => raise AttributeError
    end
  else ret true.

(** The loop, with a budget of iterations:
<<
    while not (root and path.samestat(root_stat, stat(directory))):
        if listdir(directory):
            break
        rmdir(directory)
        directory = path.dirname(directory)
>> *)
Fixpoint prune (fuel : nat) (root : option str)
    (root_stat : option Fs.stat_result) (directory : str) : M unit :=
  match fuel with
  | O => lift OutOfFuel
  | S fuel' =>
      let* go := keep_pruning root root_stat directory in
      if go then
        let* names := Fs.listdir directory in
        match names with
        | _ :: _ => ret tt
        | [] =>
            Fs.rmdir directory ;;
            prune fuel' root root_stat (os_path.dirname directory)
        end
      else ret tt
  end.

(** [rm_file_and_empty_parents(filename, root)].  Every turn of the loop
    that goes on shortens [directory], so [len(filename) + 1] turns are
    enough. *)
Definition rm_file_and_empty_parents (filename : str) (root : option str)
  : M unit :=
  let* root_stat :=
    (if truthy root
     then let* st := Fs.stat (default [] root) in ret (Some st)
     else ret None) in
  Fs.unlink filename ;;
  prune (S (length filename)) root root_stat (os_path.dirname filename).

End utils.

(** ** Django *)

Module django.

(** [os.path.normcase] on POSIX. *)
Definition normcase (p : str) : str := p.

(** [django.utils._os.safe_join(base, *paths)]: the normalized absolute
    join, or [SuspiciousFileOperation] when it is not located inside the
    base path.  (Before Django 1.6 the function raised [ValueError],
    which is what the handler in [CAStorage.path] turns into a
    [SuspiciousOperation].) *)
Definition safe_join (s : fs) (base : str) (paths : list str) : result str :=
  let final_path := os_path.abspath s (os_path.join base paths) in
  let base_path := os_path.abspath s base in
  if negb (Py.startswith (normcase final_path)
                         (normcase (base_path ++ [os_path.sep])))
     && bool_decide (normcase final_path <> normcase base_path)
     && bool_decide (os_path.dirname (normcase base_path)
                     <> normcase base_path)
  then Raise SuspiciousFileOperation
  else Ok final_path.

(** [django.utils.encoding.smart_str] on a [str]. *)
Definition smart_str (s : str) : str := s.

End django.

(** ** djcastor/storage.py *)

Module CAStorage.

(** The instance state set by [__init__]. *)
Record t : Type := {
  location : str;
  base_url : str;
  keep_extension : bool;
  shard_width : Z;
  shard_depth : Z;
}.

(** [__init__(location, base_url, keep_extension=True, sharding=(2, 2))],
    for a location and a base URL that are given (the defaults of both
    come from the settings of the host project). *)
Definition init (location base_url : str) (keep_extension : bool)
    (sharding : Z * Z) : t :=
  {| location := location;
     base_url := if Py.endswith base_url os_path.sep then base_url
                 else base_url ++ [os_path.sep];
     keep_extension := keep_extension;
     shard_width := fst sharding;
     shard_depth := snd sharding |}.

(** The names of a path in the tree, for a normalized absolute path. *)
Definition components (p : str) : loc :=
  List.filter (fun c => negb (bool_decide (c = [])))
              (Py.split p os_path.sep).

Definition get_available_name (self : t) (name : str) : str := name.

(** [digest(content)]: the digest, and the file object after the call. *)
Definition digest (self : t) (content : File) : M (str * File) :=
  match temporary_file_path content with
  | Some tmp =>
      let* d := utils.hash_filename (digestmod := sha1) tmp
                                    DEFAULT_CHUNK_SIZE in
      ret (d, content)
  | None =>
      let '(it, content') := chunks content in
      let* d := lift (utils.hash_chunks (digestmod := sha1) it) in
      ret (d, seek0 content')
  end.

Definition shard (self : t) (hexdigest : str) : list str :=
  utils.shard hexdigest (shard_width self) (shard_depth self) false.

(** [path(name)] *)
Definition path (self : t) (name : str) : M str :=
  reading (fun s =>
    let shards := shard self name in
    match django.safe_join s (location self) shards with
    | Ok path => Ok (django.smart_str (os_path.normpath path))
    | Raise e =>
        if isinstance e ValueError then Raise SuspiciousOperation
        else Raise e
    | OutOfFuel => OutOfFuel
    end).

(** [x not in path] for an [x] that is not a [str]: the test on a [str]
    takes only a [str] on the left. *)
Definition not_in (x : Py.bound_method) (s : str) : result bool :=
  Raise TypeError.

(** [delete(name, sure=False)].  In the body [path] is the local
    variable bound to [name] (the module [os.path] goes by the name
    [os_path] in this file), so [path.sep] is an attribute access on a
    [str]:
<<
    if not sure:
        return
    path = name
    if path.sep not in path:
        path = self.path(name)
    rm_file_and_empty_parents(path, root=self.location)
>> *)
Definition delete (self : t) (name : str) (sure : bool) : M unit :=
  if negb sure then ret tt
  else
    let path0 := name in
    let* path_sep := lift (Py.str_getattr path0 "sep") in
    let* absent := lift (not_in path_sep path0) in
    let* path1 := (if absent then path self name else ret path0) in
    utils.rm_file_and_empty_parents path1 (Some (location self)).

(** Modelled from the spec: [FileSystemStorage._save], the method of the
    parent class that [_save] hands over to (Django's code, not in this
    repository).  Section 4.3, save, step 4: "create any missing ancestor
    directories and atomically write the content to a uniquely-named
    temporary file then move/rename it into place at
    [physical_path(stored_name)] ... Return [stored_name]". *)
Definition FileSystemStorage_save (self : t) (name : str) (content : File)
  : M str :=
  let* full_path := path self name in
  let l := components full_path in
  Fs.makedirs_from [] (removelast l) ;;
  Fs.write_at l (concat (file_chunks content)) ;;
  ret name.

(** [_save(name, content)]
<<
    digest = self.digest(content)
    if self.keep_extension:
        digest += os_path.splitext(name)[1]
    path = self.path(digest)
    if os_path.exists(path):
        return digest
    return super(CAStorage, self)._save(digest, content)
>> *)
Definition _save (self : t) (name : str) (content : File) : M str :=
  let* dc := digest self content in
  let digest0 := fst dc in
  let digest1 :=
    if keep_extension self
    then digest0 ++ snd (os_path.splitext name)
    else digest0 in
  let* path := path self digest1 in
  let* present := os_path.exists_ path in
  if present then ret digest1
  else FileSystemStorage_save self digest1 (snd dc).

End CAStorage.

(** ** The specification's wording, where it is compared with the code *)

(** [seg] holds exactly the characters of [s] at the positions [p] with
    [a <= p < b], in order. *)
Definition is_substring_at (seg s : str) (a b : Z) : Prop :=
  forall k : nat,
    seg !! k = if decide (0 <= a + Z.of_nat k < b)
               then s !! Z.to_nat (a + Z.of_nat k) else None.

(** The shard algorithm as the specification words it, for arbitrary
    integers: [depth + 1] segments, segment [i] the substring at the
    positions [[width*i, width*(i+1))], and the final segment the whole
    string, or the substring from [width*depth] to the end. *)
Definition shard_as_specified (string : str) (width depth : Z)
    (rest_only : bool) : Prop :=
  Z.of_nat (length (utils.shard string width depth rest_only)) = depth + 1 /\
  (forall i, 0 <= i < depth ->
     exists seg,
       utils.shard string width depth rest_only !! Z.to_nat i = Some seg /\
       is_substring_at seg string (width * i) (width * (i + 1))) /\
  (exists fin, last (utils.shard string width depth rest_only) = Some fin /\
     if rest_only
     then is_substring_at fin string (width * depth) (Z.of_nat (length string))
     else fin = string).

(** The name [save] stores a content under: its digest [d], with the
    extension of the given name when extensions are kept. *)
Definition stored_name (self : CAStorage.t) (name d : str) : str :=
  if CAStorage.keep_extension self
  then d ++ snd (os_path.splitext name)
  else d.

(** The last path component of a name. *)
Definition last_component (name : str) : str :=
  default [] (last (Py.split name os_path.sep)).

(** The extension as the specification words it: the text after the last
    dot in the last path component, including the dot; empty if there is
    no dot. *)
Definition extension_as_specified (name : str) : str :=
  match Py.split (last_component name) os_path.extsep with
  | [] | [_] => []
  | parts => os_path.extsep :: default [] (last parts)
  end.

(** The same, but only when some character other than a dot stands before
    the last dot in the component. *)
Definition extension_after_stem (name : str) : str :=
  match Py.split (last_component name) os_path.extsep with
  | [] | [_] => []
  | parts =>
      if bool_decide (Forall (fun part => part = []) (removelast parts))
      then []
      else os_path.extsep :: default [] (last parts)
  end.

(** ** Normal forms of paths *)

(** A name: a path component that is not empty, not [.] and not [..], and
    holds no separator. *)
Definition plain (c : str) : Prop :=
  c <> [] /\ c <> lit "." /\ c <> lit ".." /\ os_path.sep ∉ c.

#[global] Instance plain_dec (part : str) : Decision (plain part).
Proof. unfold plain. apply _. Defined.

(** The absolute path with [k] leading separators and the components [cs]. *)
Definition render (k : nat) (cs : list str) : str :=
  repeat os_path.sep k ++ Py.join os_path.sep cs.

(** [final_path] is located inside [base_path], the way paths are compared
    as strings: it is the base path, or goes on from it after a separator,
    or the base path is a top directory (its own parent). *)
Definition located_inside (base_path final_path : str) : Prop :=
  Py.startswith final_path (base_path ++ [os_path.sep]) = true \/
  final_path = base_path \/
  os_path.dirname base_path = base_path.

(** ** The tree invariant and the pruning of empty directories *)

(** There is a top directory, and every node lies in a directory. *)
Definition wf (m : gmap loc node) : Prop :=
  m !! [] = Some Dir /\
  map_Forall (fun k _ => m !! removelast k = Some Dir) m.

#[global] Instance wf_dec (m : gmap loc node) : Decision (wf m).
Proof. unfold wf. apply _. Defined.

(** [pruned R d m m' ds]: walking up from the directory [d] in the tree
    [m], the directories [ds] (nearest first) are removed, one after the
    other, each one empty when its turn comes, and the walk stops at the
    first directory that is the root [R] or is not empty; [m'] is the tree
    left. *)
Inductive pruned (R : loc) : loc -> gmap loc node -> gmap loc node ->
                             list loc -> Prop :=
  | pruned_root (m : gmap loc node) :
      pruned R R m m []
  | pruned_nonempty (d : loc) (m : gmap loc node) (x : str) :
      d <> R -> is_Some (m !! (d ++ [x])) ->
      pruned R d m m []
  | pruned_step (d : loc) (m m' : gmap loc node) (ds : list loc) :
      d <> R -> m !! d = Some Dir -> (forall x, m !! (d ++ [x]) = None) ->
      pruned R (removelast d) (delete d m) m' ds ->
      pruned R d m m' (d :: ds).

(** The path that [abspath] normalizes: the path itself when it is
    absolute, and the path joined onto the working directory otherwise. *)
Definition absolute (s : fs) (p : str) : str :=
  if os_path.isabs p then p else os_path.join (os_path.getcwd s) [p].

(** ** What a removal may do *)

(** The location a path names, if it names one. *)
Definition named (s : fs) (p : str) : option loc :=
  match Fs.resolve s p with
  | Ok l => Some l
  | _ => None
  end.

(** What a path names, if it names something. *)
Definition node_at (s : fs) (p : str) : option node :=
  match named s p with
  | Some l => nodes s !! l
  | None => None
  end.

(** [only_removes F R s s']: from the machine [s] to the machine [s']
    nothing is created or altered; no regular file is removed, except
    possibly the one at [F]; the directory at [R] stays; a well-formed
    tree stays well formed; the working directory is the same and nothing
    is written. *)
Definition only_removes (F R : option loc) (s s' : fs) : Prop :=
  (forall l n, nodes s' !! l = Some n -> nodes s !! l = Some n) /\
  (forall l c, nodes s !! l = Some (Reg c) ->
               nodes s' !! l = Some (Reg c) \/ F = Some l) /\
  (forall l, R = Some l -> nodes s !! l = Some Dir ->
             nodes s' !! l = Some Dir) /\
  (wf (nodes s) -> wf (nodes s')) /\
  cwd s' = cwd s /\ writes s' = writes s.

(** ** A small machine for the examples *)

(** A text layer for the examples: Latin-1, where every byte is a
    character and no read fails; a negative size reads to the end. *)
Definition latin1_read (content : bytes) (size : Z)
  : list str * option exn :=
  let text := map ascii_of_byte content in
  (if size <? 0
   then match text with [] => [] | _ => [text] end
   else pieces (length text) (Z.to_nat size) text,
   None).

(** The tree [/data/1f/09/1f09d3], the last a file, and nothing else. *)
Definition example_fs : fs :=
  Fs (list_to_map
        [ ([], Dir);
          ([lit "data"], Dir);
          ([lit "data"; lit "1f"], Dir);
          ([lit "data"; lit "1f"; lit "09"], Dir);
          ([lit "data"; lit "1f"; lit "09"; lit "1f09d3"], Reg []) ])
     [] latin1_read [].

(** The location of the file in it. *)
Definition example_file : loc :=
  [lit "data"; lit "1f"; lit "09"; lit "1f09d3"].

(** [CAStorage(location="/data", base_url="/media/")] *)
Definition example_storage : CAStorage.t :=
  CAStorage.init (lit "/data") (lit "/media/") true (2, 2).

(** The tree [/data/a9/99/a9993e...], where the content [abc] is stored
    under its bare digest. *)
Definition example_fs_stored : fs :=
  Fs (list_to_map
        [ ([], Dir);
          ([lit "data"], Dir);
          ([lit "data"; lit "a9"], Dir);
          ([lit "data"; lit "a9"; lit "99"], Dir);
          ([lit "data"; lit "a9"; lit "99";
            lit "a9993e364706816aba3e25717850c26c9cd0d89d"],
           Reg (list_byte_of_string "abc")) ])
     [] latin1_read [].

(** The same tree, and the temporary file [/tmp/upload] of an upload
    spooled to disk, which holds the bytes [abc] too. *)
Definition example_fs_spooled : fs :=
  Fs (list_to_map
        [ ([], Dir);
          ([lit "data"], Dir);
          ([lit "data"; lit "a9"], Dir);
          ([lit "data"; lit "a9"; lit "99"], Dir);
          ([lit "data"; lit "a9"; lit "99";
            lit "a9993e364706816aba3e25717850c26c9cd0d89d"],
           Reg (list_byte_of_string "abc"));
          ([lit "tmp"], Dir);
          ([lit "tmp"; lit "upload"], Reg (list_byte_of_string "abc")) ])
     [] latin1_read [].

(** The upload: a [TemporaryUploadedFile], which has the method
    [temporary_file_path]. *)
Definition example_spooled_upload : File :=
  {| temporary_file_path := Some (lit "/tmp/upload");
     file_chunks := [list_byte_of_string "abc"];
     file_position := 0 |}.

(** An upload held in memory, with the bytes [abc] in two chunks. *)
Definition example_upload : File :=
  {| temporary_file_path := None;
     file_chunks := [list_byte_of_string "a"; list_byte_of_string "bc"];
     file_position := 0 |}.

(** * Part II: properties *)

(** ** Slices *)

Section slices.
Context {A : Type}.
Implicit Types s : list A.

Lemma adjust_index_nonneg len i :
  0 <= i -> Py.adjust_index len i = Z.min i len.
Proof.
  intros Hi. unfold Py.adjust_index.
  destruct (Z.ltb_spec i 0); [lia | reflexivity].
Qed.

Lemma slice_nonneg s a b :
  0 <= a <= b ->
  Py.slice s a b = take (Z.to_nat b - Z.to_nat a)%nat (drop (Z.to_nat a) s).
Proof.
  intros [Ha Hab]. unfold Py.slice; cbv zeta.
  rewrite !adjust_index_nonneg by lia.
  set (n := length s).
  destruct (Z.le_gt_cases (Z.of_nat n) a) as [Hge | Hlt].
  - rewrite !drop_ge by (subst n; lia). by rewrite !take_nil.
  - replace (Z.to_nat (Z.min a (Z.of_nat n))) with (Z.to_nat a) by lia.
    destruct (Z.le_gt_cases b (Z.of_nat n)).
    + f_equal. lia.
    + rewrite !take_ge; [done | |]; rewrite length_drop; subst n; lia.
Qed.

Lemma slice_from_nonneg s a :
  0 <= a -> Py.slice_from s a = drop (Z.to_nat a) s.
Proof.
  intros Ha. unfold Py.slice_from. rewrite adjust_index_nonneg by done.
  destruct (Z.le_gt_cases (Z.of_nat (length s)) a).
  - rewrite !drop_ge; [done | lia | lia].
  - f_equal. lia.
Qed.

Lemma slice_to_0 s : Py.slice_to s 0 = [].
Proof.
  unfold Py.slice_to. rewrite adjust_index_nonneg by done.
  by rewrite Z.min_l by lia.
Qed.

Lemma slice_lookup s a b (k : nat) :
  0 <= a <= b ->
  Py.slice s a b !! k =
    if decide (k < Z.to_nat b - Z.to_nat a)%nat
    then s !! (Z.to_nat a + k)%nat else None.
Proof.
  intros Hab. rewrite slice_nonneg by done.
  case_decide.
  - rewrite lookup_take_lt by done. by rewrite lookup_drop.
  - by rewrite lookup_take_ge by lia.
Qed.

Lemma slice_length s a b :
  0 <= a <= b ->
  Z.of_nat (length (Py.slice s a b)) =
    Z.min (b - a) (Z.max 0 (Z.of_nat (length s) - a)).
Proof.
  intros Hab. rewrite slice_nonneg by done.
  rewrite length_take, length_drop. lia.
Qed.

End slices.

(** ** The shard path mapper *)

Section shard_properties.
Implicit Types (s : str) (w d : Z) (r : bool).

Lemma slice_is_substring s a b :
  0 <= a <= b -> is_substring_at (Py.slice s a b) s a b.
Proof.
  intros Hab k. rewrite slice_lookup by done.
  repeat case_decide; try lia; [f_equal; lia | done].
Qed.

Lemma slice_from_is_substring s a :
  0 <= a -> is_substring_at (Py.slice_from s a) s a (Z.of_nat (length s)).
Proof.
  intros Ha k. rewrite slice_from_nonneg, lookup_drop by done.
  case_decide.
  - f_equal. lia.
  - apply lookup_ge_None. lia.
Qed.

Lemma shard_length s w d r :
  length (utils.shard s w d r) = S (Z.to_nat d).
Proof.
  unfold utils.shard, Py.range.
  rewrite length_app, length_map, length_seqZ. simpl. lia.
Qed.

Lemma shard_lookup_segment s w d r (i : nat) :
  Z.of_nat i < d ->
  utils.shard s w d r !! i =
    Some (Py.slice s (w * Z.of_nat i) (w * (Z.of_nat i + 1))).
Proof.
  intros Hi. unfold utils.shard, Py.range.
  rewrite lookup_app_l by (rewrite length_map, length_seqZ; lia).
  rewrite list_lookup_fmap, lookup_seqZ_lt by done. reflexivity.
Qed.

Lemma shard_last s w d r :
  last (utils.shard s w d r) =
    Some (if r then Py.slice_from s (w * d) else s).
Proof. unfold utils.shard. apply last_snoc. Qed.

(** The directory segments, put end to end, are a prefix of the string. *)
Lemma concat_segments s w (n : nat) :
  0 <= w ->
  concat (map (fun i => Py.slice s (w * i) (w * (i + 1)))
              (seqZ 0 (Z.of_nat n)))
  = take (Z.to_nat (w * Z.of_nat n)) s.
Proof.
  intros Hw. induction n as [|n IH].
  - by rewrite Z.mul_0_r.
  - rewrite seqZ_S, map_app, concat_app, IH. simpl.
    rewrite app_nil_r, Z.add_0_l, slice_nonneg by nia.
    rewrite take_take_drop. f_equal. nia.
Qed.

End shard_properties.

(** C2 (as stated, for arbitrary integers) fails: a negative depth still
    yields the final segment, and a negative width makes the first slice
    count from the end of the string. *)
Lemma shard_negative_parameters :
  (~ shard_as_specified (lit "abc") 2 (-1) false) /\
  (~ shard_as_specified (lit "abcd") (-1) 1 false) /\
  utils.shard (lit "abc") 2 (-1) false = [lit "abc"] /\
  utils.shard (lit "abcd") (-1) 1 false = [lit "abc"; lit "abcd"].
Proof.
  split; [|split; [|split; reflexivity]].
  - intros [Hlen _]. vm_compute in Hlen. discriminate.
  - intros (_ & Hseg & _).
    destruct (Hseg 0 ltac:(lia)) as (seg & Hlk & Hsub).
    vm_compute in Hlk. injection Hlk as <-.
    specialize (Hsub 0%nat). vm_compute in Hsub. discriminate.
Qed.

(** C2 (amended): for every string and all [width >= 0], [depth >= 0],
    [shard] yields exactly [depth + 1] segments; segment [i] is the
    substring at the positions [[width*i, width*(i+1))]; the final segment
    is the whole string when [rest_only] is false and the substring from
    [width*depth] to the end when it is true.  In particular the digest of
    the documentation shards to ["1f"; "09"; digest]. *)
Theorem shard_algorithm (s : str) (w d : Z) (r : bool) :
  0 <= w -> 0 <= d ->
  shard_as_specified s w d r /\
  utils.shard (lit "1f09d30c707d53f3d16c530dd73d70a6ce7596a9") 2 2 false =
    [lit "1f"; lit "09"; lit "1f09d30c707d53f3d16c530dd73d70a6ce7596a9"].
Proof.
  intros Hw Hd. split; [|reflexivity].
  split; [|split].
  - rewrite shard_length. lia.
  - intros i Hi. eexists. split.
    + rewrite shard_lookup_segment by lia. reflexivity.
    + rewrite Z2Nat.id by lia. apply slice_is_substring. nia.
  - eexists. split; [apply shard_last|].
    destruct r; [|reflexivity].
    apply slice_from_is_substring. nia.
Qed.

Lemma shard_algorithm_witness :
  shard_as_specified (lit "1f09d30c707d53f3d16c530dd73d70a6ce7596a9") 3 2 true.
Proof.
  apply (shard_algorithm (lit "1f09d30c707d53f3d16c530dd73d70a6ce7596a9") 3 2 true);
    lia.
Defined.

(** C9: [shard] is total (slicing and [range] accept every integer): for
    all [width] and [depth] it yields [max depth 0] directory segments and
    one final segment; for a non-negative width the directory segment [i]
    has [min width (max 0 (len - width*i))] characters, so it is shorter
    than [width], or empty, once it reaches past the end of the string;
    and with [depth = 0] the result is the final segment alone. *)
Theorem shard_total (s : str) (w d : Z) (r : bool) :
  (exists segs fin,
     utils.shard s w d r = segs ++ [fin] /\
     length segs = Z.to_nat d /\
     (0 <= w ->
      forall (i : nat) seg, segs !! i = Some seg ->
        Z.of_nat (length seg) =
          Z.min w (Z.max 0 (Z.of_nat (length s) - w * Z.of_nat i)))) /\
  utils.shard s w 0 r = [s].
Proof.
  split.
  - eexists _, _. split; [reflexivity|]. split.
    + unfold Py.range. by rewrite length_map, length_seqZ.
    + intros Hw i seg Hlk.
      rewrite list_lookup_fmap in Hlk.
      destruct (Py.range d !! i) as [j|] eqn:Hj; [|done].
      apply lookup_seqZ in Hj as [-> _].
      injection Hlk as <-. rewrite slice_length by nia. nia.
  - unfold utils.shard. simpl. destruct r; [|done].
    by rewrite Z.mul_0_r, slice_from_nonneg.
Qed.

(** C10: for [width >= 0] and [depth >= 0], the segments yielded with
    [rest_only = true], put end to end, are the original string. *)
Theorem shard_rest_only_roundtrip (s : str) (w d : Z) :
  0 <= w -> 0 <= d -> concat (utils.shard s w d true) = s.
Proof.
  intros Hw Hd. unfold utils.shard, Py.range.
  rewrite concat_app. simpl. rewrite app_nil_r.
  rewrite <- (Z2Nat.id d) at 1 by done.
  rewrite concat_segments, slice_from_nonneg by nia.
  rewrite Z2Nat.id by done. apply take_drop.
Qed.

Lemma shard_rest_only_roundtrip_witness :
  concat (utils.shard (lit "1f09d30c707d53f3d16c530dd73d70a6ce7596a9") 7 9 true)
  = lit "1f09d30c707d53f3d16c530dd73d70a6ce7596a9".
Proof.
  apply (shard_rest_only_roundtrip
           (lit "1f09d30c707d53f3d16c530dd73d70a6ce7596a9") 7 9); lia.
Defined.

(** The examples of the docstring of [shard]. *)
Example shard_docstring :
  let digest := lit "1f09d30c707d53f3d16c530dd73d70a6ce7596a9" in
  utils.shard digest 5 1 false = [lit "1f09d"; digest] /\
  utils.shard digest 1 5 false
    = [lit "1"; lit "f"; lit "0"; lit "9"; lit "d"; digest] /\
  utils.shard digest 2 2 true
    = [lit "1f"; lit "09"; lit "d30c707d53f3d16c530dd73d70a6ce7596a9"].
Proof. repeat split. Qed.

(** ** The digest engine *)

Section hash_properties.
Context {digestmod : HashAlgorithm}.

(** Feeding byte chunks one by one is one update with all the bytes. *)
Lemma feed_bytes (h : hash_state) (cs : list bytes) :
  utils.feed h (Bytes <$> cs) = Ok (hash_update h (concat cs)).
Proof.
  revert h. induction cs as [|c cs IH]; intros h; simpl.
  - by rewrite hash_update_nil.
  - by rewrite IH, hash_update_app.
Qed.

Lemma hash_chunks_bytes (cs : list bytes) :
  utils.hash_chunks (Bytes <$> cs)
  = Ok (hash_hexdigest (hash_update hash_new (concat cs))).
Proof. unfold utils.hash_chunks. by rewrite feed_bytes. Qed.

(** A text chunk stops the loop with a [TypeError]. *)
Lemma feed_text (h : hash_state) (t : str) (rest : list chunk) :
  utils.feed h (Text t :: rest) = Raise TypeError.
Proof. reflexivity. Qed.

End hash_properties.

Lemma hex_digit_lowercase (x : Z) :
  0 <= x < 16 -> SHA1.hex_digit x ∈ lit "0123456789abcdef".
Proof.
  intros Hx. unfold SHA1.hex_digit.
  apply list_elem_of_In, nth_In. simpl. lia.
Qed.

Lemma hex_word_shape (x : Z) :
  length (SHA1.hex_word x) = 8%nat /\
  Forall (fun c => c ∈ lit "0123456789abcdef") (SHA1.hex_word x).
Proof.
  split; [reflexivity|].
  unfold SHA1.hex_word. apply Forall_forall. intros c Hc.
  apply list_elem_of_fmap in Hc as (i & -> & _).
  apply hex_digit_lowercase, Z.mod_pos_bound. lia.
Qed.

(** A SHA-1 digest is 40 lowercase hexadecimal digits. *)
Lemma sha1_hexdigest_shape (msg : bytes) :
  length (SHA1.hexdigest msg) = 40%nat /\
  Forall (fun c => c ∈ lit "0123456789abcdef") (SHA1.hexdigest msg).
Proof.
  unfold SHA1.hexdigest.
  destruct (SHA1.blocks _ _ _) as [[[[h0 h1] h2] h3] h4].
  split.
  - rewrite !length_app.
    by rewrite !(proj1 (hex_word_shape _)).
  - rewrite !Forall_app. repeat split; apply hex_word_shape.
Qed.

(** The example of the docstring of [hash_chunks]. *)
Example hash_chunks_docstring :
  utils.hash_chunks (digestmod := sha1)
    [Bytes (list_byte_of_string "a"); Bytes (list_byte_of_string "b");
     Bytes (list_byte_of_string "c")]
  = Ok (SHA1.hexdigest (list_byte_of_string "abc")) /\
  SHA1.hexdigest (list_byte_of_string "abc")
  = lit "a9993e364706816aba3e25717850c26c9cd0d89d".
Proof. split; vm_compute; reflexivity. Qed.

(** The chunks of a file opened in text mode are [str] values. *)
Lemma chunks_loop_text (reads : list str) (failure e : option exn)
    (c : chunk) (cs : list chunk) :
  utils.chunks_loop reads failure = (c :: cs, e) -> exists t, c = Text t.
Proof.
  destruct reads as [|[|x data] rest]; simpl; [done | done |].
  destruct (utils.chunks_loop rest failure). intros [= <- _ _]. eauto.
Qed.

(** [hash_filename] opens the file in text mode, so what it feeds the
    hash object are [str] chunks: it returns the digest of the empty input
    when the first read returns nothing (the example of its docstring),
    and raises otherwise, with a [TypeError] from [update] as soon as a
    read has returned something. *)
Lemma hash_filename_text_mode {digestmod : HashAlgorithm}
    (filename : str) (chunk_size : Z) (s : fs) (l : loc) (content : bytes) :
  Fs.resolve s filename = Ok l ->
  nodes s !! l = Some (Reg content) ->
  utils.hash_filename filename chunk_size s
  = (match utils.text_chunks s content chunk_size with
     | ([], None) => Ok (hash_hexdigest hash_new)
     | ([], Some e) => Raise e
     | (_ :: _, _) => Raise TypeError
     end, s).
Proof.
  intros Hres Hreg. unfold utils.hash_filename, reading.
  rewrite Hres, Hreg. f_equal.
  destruct (utils.text_chunks s content chunk_size) as [[|c cs] failure]
    eqn:Hchunks.
  - by destruct failure.
  - unfold utils.text_chunks in Hchunks.
    destruct (text_read s content _) as [reads failure0].
    apply chunks_loop_text in Hchunks as [text ->].
    by destruct failure.
Qed.

(** C8: the digest depends on the bytes only.  For every hash algorithm
    and every two sequences of byte chunks with the same concatenation,
    [hash_chunks] returns the same digest, which is the digest of the
    concatenated bytes; with the default algorithm, SHA-1, it is 40
    lowercase hexadecimal digits. *)
Theorem hash_chunks_chunking {digestmod : HashAlgorithm}
    (cs1 cs2 : list bytes) :
  concat cs1 = concat cs2 ->
  utils.hash_chunks (Bytes <$> cs1) = utils.hash_chunks (Bytes <$> cs2) /\
  utils.hash_chunks (Bytes <$> cs1)
    = Ok (hash_hexdigest (hash_update hash_new (concat cs1))) /\
  exists d, utils.hash_chunks (digestmod := sha1) (Bytes <$> cs1) = Ok d /\
    length d = 40%nat /\
    Forall (fun c => c ∈ lit "0123456789abcdef") d.
Proof.
  intros Heq. split; [|split].
  - rewrite !hash_chunks_bytes. by rewrite Heq.
  - apply hash_chunks_bytes.
  - eexists. split; [apply hash_chunks_bytes|].
    apply sha1_hexdigest_shape.
Qed.

Lemma hash_chunks_chunking_witness :
  utils.hash_chunks (digestmod := sha1)
    (Bytes <$> [list_byte_of_string "a"; list_byte_of_string "bc"])
  = utils.hash_chunks (digestmod := sha1)
    (Bytes <$> [list_byte_of_string "ab"; []; list_byte_of_string "c"]).
Proof.
  apply (hash_chunks_chunking (digestmod := sha1)
           [list_byte_of_string "a"; list_byte_of_string "bc"]
           [list_byte_of_string "ab"; []; list_byte_of_string "c"]).
  reflexivity.
Defined.

(** ** Deletion *)

(** C3: an unconfirmed delete returns normally, for every name, and leaves
    the machine as it was: every location of the tree holds what it held
    (no file and no directory is removed), and nothing is logged. *)
Theorem delete_unconfirmed_noop (self : CAStorage.t) (name : str) (s : fs) :
  exists s',
    CAStorage.delete self name false s = (Ok tt, s') /\
    s' = s /\
    (forall l, nodes s' !! l = nodes s !! l) /\
    log s' = log s.
Proof.
  exists s. unfold CAStorage.delete. simpl negb. cbv iota.
  by repeat split.
Qed.

(** A [str] has no attribute [sep]. *)
Lemma str_has_no_sep (obj : str) :
  Py.str_getattr obj "sep" = Raise AttributeError.
Proof. reflexivity. Qed.

(** C4 (the code at its failing inputs): a confirmed delete raises
    [AttributeError] at the test [path.sep not in path], for every name,
    before anything is resolved or unlinked. *)
Theorem delete_confirmed_raises (self : CAStorage.t) (name : str) (s : fs) :
  CAStorage.delete self name true s = (Raise AttributeError, s).
Proof.
  unfold CAStorage.delete. simpl. unfold bind, lift.
  by rewrite str_has_no_sep.
Qed.

(** ** Strings: the last occurrence of a character, and splitting *)

Section string_lemmas.
Implicit Types (s pre post : str) (c x : ascii).

Lemma rfind_from_notin s c i : c ∉ s -> Py.rfind_from i s c = -1.
Proof.
  revert i. induction s as [|x s IH]; intros i Hc; simpl; [done|].
  apply not_elem_of_cons in Hc as [Hx Hs].
  rewrite IH by done. simpl. by rewrite decide_False.
Qed.

Lemma rfind_from_last pre post c i :
  0 <= i -> c ∉ post ->
  Py.rfind_from i (pre ++ c :: post) c = i + Z.of_nat (length pre).
Proof.
  revert i. induction pre as [|x pre IH]; intros i Hi Hc; simpl.
  - rewrite rfind_from_notin by done. simpl.
    rewrite decide_True by done. lia.
  - rewrite IH by (done || lia).
    destruct (Z.leb_spec 0 (i + 1 + Z.of_nat (length pre))); lia.
Qed.

Lemma rfind_from_bound s c i :
  0 <= i ->
  Py.rfind_from i s c = -1 \/
  i <= Py.rfind_from i s c < i + Z.of_nat (length s).
Proof.
  revert i. induction s as [|x s IH]; intros i Hi; simpl; [by left|].
  destruct (IH (i + 1) ltac:(lia)) as [-> | Hr].
  - simpl. case_decide; [right | left]; lia.
  - destruct (Z.leb_spec 0 (Py.rfind_from (i + 1) s c)); [right|]; lia.
Qed.

Lemma rfind_last pre post c :
  c ∉ post -> Py.rfind (pre ++ c :: post) c = Z.of_nat (length pre).
Proof. intros. unfold Py.rfind. by rewrite rfind_from_last. Qed.

Lemma rfind_notin s c : c ∉ s -> Py.rfind s c = -1.
Proof. apply rfind_from_notin. Qed.

(** A character that does not occur in the tail is found in the front
    part, if anywhere. *)
Lemma rfind_app_notin pre post c :
  c ∉ post -> Py.rfind (pre ++ post) c = Py.rfind pre c.
Proof.
  intros Hpost.
  destruct (decide (c ∈ pre)) as [Hin | Hnin].
  - apply list_elem_of_split_r in Hin as (l1 & l2 & -> & Hl2).
    rewrite <- app_assoc. simpl.
    rewrite !rfind_last; [done | done |].
    rewrite elem_of_app. tauto.
  - rewrite !rfind_notin; [done | done |].
    rewrite elem_of_app. tauto.
Qed.

Lemma split_nonempty s c : Py.split s c <> [].
Proof.
  destruct s as [|x s]; simpl; [done|].
  case_decide; [done|]. by destruct (Py.split s c).
Qed.

Lemma split_notin s c : c ∉ s -> Py.split s c = [s].
Proof.
  induction s as [|x s IH]; intros Hc; simpl; [done|].
  apply not_elem_of_cons in Hc as [Hx Hs].
  rewrite decide_False by done. by rewrite IH.
Qed.

Lemma split_app pre post c :
  Py.split (pre ++ c :: post) c = Py.split pre c ++ Py.split post c.
Proof.
  induction pre as [|x pre IH]; simpl.
  - by rewrite decide_True.
  - case_decide; [by rewrite IH|].
    rewrite IH. pose proof (split_nonempty pre c).
    by destruct (Py.split pre c).
Qed.

Lemma split_last pre post c :
  c ∉ post -> Py.split (pre ++ c :: post) c = Py.split pre c ++ [post].
Proof. intros. by rewrite split_app, (split_notin post). Qed.

(** The pieces of a split are all empty exactly when the string holds
    nothing but separators. *)
Lemma split_all_empty s c :
  Forall (fun part => part = []) (Py.split s c) <-> Forall (fun x => x = c) s.
Proof.
  induction s as [|x s IH]; simpl.
  - split; intros; [constructor | by repeat constructor].
  - case_decide as Hx.
    + rewrite !Forall_cons, IH. tauto.
    + pose proof (split_nonempty s c).
      destruct (Py.split s c) as [|w ws]; [done|].
      rewrite !Forall_cons. split; [by intros [? _] | tauto].
Qed.

(** Every piece of a split is free of the separator. *)
Lemma split_pieces_notin s c :
  Forall (fun part => c ∉ part) (Py.split s c).
Proof.
  induction s as [|x s IH]; simpl.
  - repeat constructor. apply not_elem_of_nil.
  - case_decide.
    + constructor; [apply not_elem_of_nil | done].
    + pose proof (split_nonempty s c).
      destruct (Py.split s c) as [|w ws]; [done|].
      apply Forall_cons in IH as [Hw Hws].
      constructor; [|done].
      apply not_elem_of_cons. split; [congruence | done].
Qed.

(** A string is its directory part followed by its last component. *)
Lemma last_component_split (name : str) :
  exists dirpart,
    name = dirpart ++ last_component name /\
    (os_path.sep ∉ last_component name) /\
    Py.rfind name os_path.sep + 1 = Z.of_nat (length dirpart).
Proof.
  unfold last_component.
  destruct (decide (os_path.sep ∈ name)) as [Hin | Hnin].
  - apply list_elem_of_split_r in Hin as (l1 & l2 & -> & Hl2).
    exists (l1 ++ [os_path.sep]).
    rewrite split_last, last_snoc by done. simpl.
    rewrite <- app_assoc. split; [done|]. split; [done|].
    rewrite rfind_last, length_app by done. simpl. lia.
  - exists []. rewrite split_notin by done. simpl.
    split; [done|]. split; [done|]. by rewrite rfind_notin.
Qed.

End string_lemmas.

(** ** [splitext] and the stored name *)

Section splitext_properties.
Implicit Types (name stem rest : str).

Lemma slice_one {A} (s D rest : list A) (x : A) :
  s = D ++ x :: rest ->
  Py.slice s (Z.of_nat (length D)) (Z.of_nat (length D) + 1) = [x].
Proof.
  intros ->. rewrite slice_nonneg by lia.
  rewrite Nat2Z.id, drop_app_length.
  replace (Z.to_nat (Z.of_nat (length D) + 1) - length D)%nat with 1%nat by lia.
  reflexivity.
Qed.

Lemma splitext_scan_stem name D stem rest (dot : Z) :
  name = D ++ stem ++ rest ->
  os_path.splitext_scan name dot
    (seqZ (Z.of_nat (length D)) (Z.of_nat (length stem)))
  = if bool_decide (Forall (fun x => x = os_path.extsep) stem) then None
    else Some (Py.slice_to name dot, Py.slice_from name dot).
Proof.
  revert D. induction stem as [|x stem IH]; intros D Hname.
  - rewrite seqZ_nil by done. reflexivity.
  - rewrite seqZ_cons by (simpl; lia).
    replace (Z.pred (Z.of_nat (length (x :: stem))))
      with (Z.of_nat (length stem)) by (simpl; lia).
    replace (Z.succ (Z.of_nat (length D)))
      with (Z.of_nat (length (D ++ [x])))
      by (rewrite length_app; simpl; lia).
    simpl os_path.splitext_scan.
    rewrite (slice_one name D (stem ++ rest) x) by done.
    destruct (decide (x = os_path.extsep)) as [-> | Hx].
    + rewrite bool_decide_eq_false_2 by (intros Hne; by apply Hne).
      rewrite (IH (D ++ [os_path.extsep]))
        by (rewrite <- app_assoc; done).
      rewrite (bool_decide_ext _
                 (Forall (fun x => x = os_path.extsep) (os_path.extsep :: stem)));
        [done|]. rewrite Forall_cons. tauto.
    + rewrite bool_decide_eq_true_2 by congruence.
      rewrite bool_decide_eq_false_2; [done|].
      intros Hall. by apply Forall_cons in Hall as [? _].
Qed.

(** The extension [splitext] splits off is the text from the last dot of
    the last component on, when a character other than a dot stands before
    that dot in the component, and nothing otherwise. *)
Lemma splitext_extension name :
  snd (os_path.splitext name) = extension_after_stem name.
Proof.
  destruct (last_component_split name) as (D & Hname & Hsep & Hidx).
  unfold extension_after_stem, os_path.splitext; cbv zeta.
  set (comp := last_component name) in *.
  destruct (decide (os_path.extsep ∈ comp)) as [Hin | Hnin].
  - apply list_elem_of_split_r in Hin as (stem & e & Hcomp & He).
    rewrite Hcomp, split_last by done.
    pose proof (split_nonempty stem os_path.extsep) as Hne.
    pose proof (split_all_empty stem os_path.extsep) as Hall.
    destruct (Py.split stem os_path.extsep) as [|w ws] eqn:Hsplit; [done|].
    assert (Py.rfind name os_path.extsep
            = Z.of_nat (length D) + Z.of_nat (length stem)) as Hdot.
    { rewrite Hname, Hcomp, app_assoc, rfind_last, length_app by done. lia. }
    rewrite Hdot.
    destruct (Z.ltb_spec (Py.rfind name os_path.sep)
                (Z.of_nat (length D) + Z.of_nat (length stem))); [|lia].
    replace (Z.of_nat (length D) + Z.of_nat (length stem)
             - (Py.rfind name os_path.sep + 1))
      with (Z.of_nat (length stem)) by lia.
    rewrite Hidx.
    rewrite (splitext_scan_stem name D stem (os_path.extsep :: e))
      by (rewrite Hname at 1; by rewrite Hcomp).
    assert (removelast ((w :: ws) ++ [e]) = w :: ws) as Hrl
      by apply removelast_last.
    assert (last ((w :: ws) ++ [e]) = Some e) as Hl by apply last_snoc.
    assert (bool_decide (Forall (fun part : str => part = []) (w :: ws))
            = bool_decide (Forall (fun x => x = os_path.extsep) stem)) as Hbd
      by (apply bool_decide_ext; done).
    change ((w :: ws) ++ [e]) with (w :: (ws ++ [e])) in *.
    destruct (ws ++ [e]) as [|y ys] eqn:Hys; [by destruct ws|].
    cbv beta iota. rewrite Hrl, Hl, Hbd. clear Hbd.
    destruct (bool_decide (Forall _ stem)); simpl; [apply slice_to_0|].
    rewrite slice_from_nonneg by lia.
    rewrite Hname at 1. rewrite Hcomp, app_assoc.
    rewrite <- Nat2Z.inj_add, Nat2Z.id, <- length_app.
    by rewrite drop_app_length.
  - rewrite (split_notin comp) by done.
    assert (Py.rfind name os_path.extsep <= Py.rfind name os_path.sep) as Hle.
    { rewrite Hname at 1. rewrite rfind_app_notin by done.
      destruct (rfind_from_bound D os_path.extsep 0 ltac:(lia)) as [Hr | Hr];
        unfold Py.rfind in *; lia. }
    destruct (Z.ltb_spec (Py.rfind name os_path.sep)
                (Py.rfind name os_path.extsep)); [lia|].
    apply slice_to_0.
Qed.

End splitext_properties.

(** ** Calls *)

Section calls.
Context {A B : Type}.

Lemma bind_ok (c : M A) (k : A -> M B) (s s' : fs) (b : B) :
  bind c k s = (Ok b, s') ->
  exists a s1, c s = (Ok a, s1) /\ k a s1 = (Ok b, s').
Proof.
  unfold bind. destruct (c s) as [[a| |] s1]; [eauto | done | done].
Qed.

Lemma bind_eq (c : M A) (k : A -> M B) (s s1 : fs) (a : A) :
  c s = (Ok a, s1) -> bind c k s = k a s1.
Proof. unfold bind. by intros ->. Qed.

Lemma bind_raise (c : M A) (k : A -> M B) (s s1 : fs) (e : exn) :
  c s = (Raise e, s1) -> bind c k s = (Raise e, s1).
Proof. unfold bind. by intros ->. Qed.

End calls.

(** A run is its result paired with its final state. *)
Lemma run_eq {A} (r : result A * fs) (x : result A) :
  fst r = x -> r = (x, snd r).
Proof. intros <-. by destruct r. Qed.

Lemma run_pair {A} (r : result A * fs) (x : result A) (s : fs) :
  fst r = x -> snd r = s -> r = (x, s).
Proof. intros <- <-. by destruct r. Qed.

(** [path], [exists] and [digest] only read the machine. *)
Lemma path_reads (self : CAStorage.t) (name : str) (s : fs) :
  snd (CAStorage.path self name s) = s.
Proof. reflexivity. Qed.

Lemma exists_reads (p : str) (s : fs) : snd (os_path.exists_ p s) = s.
Proof.
  unfold os_path.exists_, Fs.stat, reading.
  destruct (Fs.resolve s p) as [l| |]; simpl; [|by case_match|done].
  destruct (nodes s !! l) as [[]|]; done.
Qed.

Lemma digest_reads (self : CAStorage.t) (content : File) (s : fs) :
  snd (CAStorage.digest self content s) = s.
Proof.
  unfold CAStorage.digest.
  destruct (temporary_file_path content) as [tmp|].
  - unfold bind, utils.hash_filename, reading.
    by destruct (match Fs.resolve s tmp with Ok _ => _ | _ => _ end).
  - simpl. unfold bind, lift.
    by destruct (utils.hash_chunks _).
Qed.

Lemma FileSystemStorage_save_name (self : CAStorage.t) (name : str)
    (content : File) (s s' : fs) (r : str) :
  CAStorage.FileSystemStorage_save self name content s = (Ok r, s') ->
  r = name.
Proof.
  unfold CAStorage.FileSystemStorage_save. intros H.
  apply bind_ok in H as (p & s1 & _ & H).
  apply bind_ok in H as (? & s2 & _ & H).
  apply bind_ok in H as (? & s3 & _ & H).
  unfold ret in H. congruence.
Qed.

(** C7 (as stated) fails on a name whose last component starts with its
    only dot: [splitext] takes leading dots for part of the stem, so the
    stored name of [.png] is the bare digest, here found in the store
    already. *)
Lemma save_dotfile_name :
  fst (CAStorage._save example_storage (lit ".png") example_upload
         example_fs_stored)
    = Ok (lit "a9993e364706816aba3e25717850c26c9cd0d89d") /\
  fst (CAStorage.digest example_storage example_upload example_fs_stored)
    = Ok (lit "a9993e364706816aba3e25717850c26c9cd0d89d", example_upload) /\
  CAStorage.keep_extension example_storage = true /\
  extension_as_specified (lit ".png") = lit ".png" /\
  snd (os_path.splitext (lit ".png")) = [] /\
  lit "a9993e364706816aba3e25717850c26c9cd0d89d"
    <> lit "a9993e364706816aba3e25717850c26c9cd0d89d"
       ++ extension_as_specified (lit ".png").
Proof.
  repeat split; try (vm_compute; reflexivity). discriminate.
Qed.

(** C7 (amended): when [save] returns a stored name, that name is the
    digest of the content, followed when [keep_extension] is enabled by the
    extension of the given name: the text from the last dot of its last
    path component on, provided a character other than a dot stands before
    that dot in the component, and nothing otherwise. *)
Theorem save_stored_name (self : CAStorage.t) (name : str) (content : File)
    (s s' : fs) (stored : str) :
  CAStorage._save self name content s = (Ok stored, s') ->
  exists d content',
    CAStorage.digest self content s = (Ok (d, content'), s) /\
    stored = if CAStorage.keep_extension self
             then d ++ extension_after_stem name
             else d.
Proof.
  unfold CAStorage._save. intros H.
  apply bind_ok in H as ([d content'] & s1 & Hd & H).
  pose proof (digest_reads self content s) as Hs1.
  rewrite Hd in Hs1. simpl in Hs1. subst s1.
  exists d, content'. split; [done|].
  rewrite <- splitext_extension. simpl in H.
  apply bind_ok in H as (p & s2 & _ & H).
  apply bind_ok in H as (present & s3 & _ & H).
  destruct present.
  - unfold ret in H. congruence.
  - apply FileSystemStorage_save_name in H. done.
Qed.

Lemma save_stored_name_witness :
  exists d content',
    CAStorage.digest example_storage example_upload example_fs
      = (Ok (d, content'), example_fs) /\
    lit "a9993e364706816aba3e25717850c26c9cd0d89d.png"
      = d ++ extension_after_stem (lit "photo.png").
Proof.
  apply (save_stored_name example_storage (lit "photo.png") example_upload
           example_fs
           (snd (CAStorage._save example_storage (lit "photo.png")
                   example_upload example_fs))).
  apply run_eq. vm_compute. reflexivity.
Defined.

(** ** Paths as strings *)

Section path_lemmas.
Implicit Types (s p pre post : str) (c x : ascii) (cs : list str).

Lemma startswith_spec s pre :
  Py.startswith s pre = true <-> exists post, s = pre ++ post.
Proof.
  revert s. induction pre as [|x pre IH]; intros s.
  - destruct s; (split; [eauto | done]).
  - destruct s as [|y s]; simpl.
    + split; [done | by intros [? ?]].
    + case_decide as Hxy.
      * subst y. rewrite IH. split; intros [post Hp]; exists post.
        -- by rewrite Hp.
        -- by injection Hp.
      * split; [done|]. intros [post Hp]. injection Hp as -> _. done.
Qed.

Lemma rstrip_length s c : (length (Py.rstrip s c) <= length s)%nat.
Proof.
  induction s as [|x s IH]; simpl; [done|].
  destruct (Py.rstrip s c) eqn:Hr.
  - case_decide; simpl; lia.
  - simpl in *. lia.
Qed.

Lemma rstrip_snoc s c : Py.rstrip (s ++ [c]) c = Py.rstrip s c.
Proof.
  induction s as [|x s IH]; simpl.
  - by rewrite decide_True.
  - by rewrite IH.
Qed.

Lemma rstrip_keeps s x c : x <> c -> Py.rstrip (s ++ [x]) c = s ++ [x].
Proof.
  intros Hx. induction s as [|y s IH]; simpl.
  - by rewrite decide_False.
  - rewrite IH. by destruct s.
Qed.

(** [dirname] of a string without separator, and of one cut at its last
    separator. *)
Lemma dirname_notin p : os_path.sep ∉ p -> os_path.dirname p = [].
Proof.
  intros Hp. unfold os_path.dirname; cbv zeta.
  rewrite rfind_notin by done. simpl. by rewrite slice_to_0.
Qed.

Lemma slice_to_length {A} (l1 l2 : list A) :
  Py.slice_to (l1 ++ l2) (Z.of_nat (length l1)) = l1.
Proof.
  unfold Py.slice_to. rewrite adjust_index_nonneg by lia.
  rewrite length_app, Z.min_l by lia.
  by rewrite Nat2Z.id, take_app_length.
Qed.

Lemma dirname_last_sep pre post :
  os_path.sep ∉ post ->
  os_path.dirname (pre ++ os_path.sep :: post) =
    if bool_decide (Forall (fun x => x = os_path.sep) pre)
    then pre ++ [os_path.sep]
    else Py.rstrip pre os_path.sep.
Proof.
  intros Hpost. unfold os_path.dirname; cbv zeta.
  rewrite rfind_last by done.
  replace (pre ++ os_path.sep :: post)
    with ((pre ++ [os_path.sep]) ++ post) by (by rewrite <- app_assoc).
  replace (Z.of_nat (length pre) + 1)
    with (Z.of_nat (length (pre ++ [os_path.sep])))
    by (rewrite length_app; simpl; lia).
  rewrite slice_to_length.
  rewrite bool_decide_eq_true_2 by (by destruct pre).
  simpl. rewrite rstrip_snoc.
  case_bool_decide as Hall; case_bool_decide as Hpre; simpl; try done.
  - destruct Hall. rewrite length_app. simpl.
    replace (length pre + 1)%nat with (S (length pre)) by lia.
    clear -Hpre. induction Hpre as [|x pre -> _ IH]; simpl; [done|].
    by rewrite IH.
  - destruct Hpre. apply Forall_forall. intros x Hx.
    assert (x ∈ repeat os_path.sep (length (pre ++ [os_path.sep]))) as Hin.
    { rewrite <- Hall. apply elem_of_app. by left. }
    apply list_elem_of_In, repeat_spec in Hin. done.
Qed.

(** A path that is its own [dirname] holds nothing but separators. *)
Lemma dirname_fixpoint p :
  os_path.dirname p = p -> Forall (fun x => x = os_path.sep) p.
Proof.
  intros Hfix.
  destruct (decide (os_path.sep ∈ p)) as [Hin | Hnin].
  - apply list_elem_of_split_r in Hin as (pre & post & -> & Hpost).
    rewrite dirname_last_sep in Hfix by done.
    case_bool_decide as Hpre.
    + apply (f_equal length) in Hfix. rewrite !length_app in Hfix.
      simpl in Hfix. destruct post; [|simpl in Hfix; lia].
      apply Forall_app. split; [done | by repeat constructor].
    + apply (f_equal length) in Hfix. rewrite length_app in Hfix.
      pose proof (rstrip_length pre os_path.sep). simpl in Hfix. lia.
  - rewrite dirname_notin in Hfix by done. by subst p.
Qed.

Lemma split_join cs :
  cs <> [] -> Forall (fun part => os_path.sep ∉ part) cs ->
  Py.split (Py.join os_path.sep cs) os_path.sep = cs.
Proof.
  induction cs as [|part cs IH]; intros Hne Hcs; [done|].
  apply Forall_cons in Hcs as [Hc Hcs].
  destruct cs as [|part' cs]; simpl.
  - by apply split_notin.
  - rewrite split_app, (split_notin part) by done.
    simpl in IH. by rewrite IH.
Qed.

Lemma split_repeat_sep (k : nat) s :
  Py.split (repeat os_path.sep k ++ s) os_path.sep
  = repeat [] k ++ Py.split s os_path.sep.
Proof.
  induction k as [|k IH]; simpl; [done|]. by rewrite IH.
Qed.

Lemma plain_notin (part : str) : plain part -> os_path.sep ∉ part.
Proof. by intros (_ & _ & _ & ?). Qed.

End path_lemmas.

(** ** [normpath] and [abspath] *)

Section normpath_properties.
Implicit Types (p : str) (k : nat) (cs acc : list str).

Lemma plain_last acc : Forall plain acc -> last acc <> Some (lit "..").
Proof.
  intros Hacc Hlast. apply last_Some in Hlast as [acc' ->].
  apply Forall_app in Hacc as [_ Hl].
  apply Forall_cons in Hl as [(_ & _ & Hdd & _) _]. done.
Qed.

Lemma Forall_removelast {A} (P : A -> Prop) (l : list A) :
  Forall P l -> Forall P (removelast l).
Proof.
  induction 1 as [|x l Hx Hl IH]; simpl; [constructor|].
  destruct l; [constructor | by constructor].
Qed.

(** On an absolute path the loop of [normpath] keeps nothing but names. *)
Lemma normpath_step_plain k acc (comp : str) :
  k <> 0%nat -> os_path.sep ∉ comp -> Forall plain acc ->
  Forall plain (os_path.normpath_step k acc comp).
Proof.
  intros Hk Hsep Hacc. unfold os_path.normpath_step.
  case_decide as Hskip; [done|].
  destruct (decide (comp = lit "..")) as [-> | Hdd].
  - rewrite (bool_decide_eq_false_2 (lit ".." <> lit "..")) by (by intros ?).
    rewrite (bool_decide_eq_false_2 (k = 0%nat)) by done.
    rewrite (bool_decide_eq_false_2 (last acc = _)) by (by apply plain_last).
    simpl. by apply Forall_removelast.
  - rewrite (bool_decide_eq_true_2 (comp <> lit "..")) by done. simpl.
    apply Forall_app. split; [done|]. repeat constructor; tauto.
Qed.

Lemma normpath_fold_plain k cs acc :
  k <> 0%nat -> Forall (fun comp => os_path.sep ∉ comp) cs ->
  Forall plain acc ->
  Forall plain (fold_left (os_path.normpath_step k) cs acc).
Proof.
  intros Hk Hcs. revert acc.
  induction Hcs as [|comp cs Hc _ IH]; intros acc Hacc; simpl; [done|].
  apply IH. by apply normpath_step_plain.
Qed.

(** Names are kept as they are. *)
Lemma normpath_fold_names k cs acc :
  Forall plain cs ->
  fold_left (os_path.normpath_step k) cs acc = acc ++ cs.
Proof.
  intros Hcs. revert acc.
  induction Hcs as [|comp cs (Hne & Hd & Hdd & _) _ IH]; intros acc; simpl.
  - by rewrite app_nil_r.
  - rewrite IH.
    replace (acc ++ comp :: cs) with ((acc ++ [comp]) ++ cs)
      by (by rewrite <- app_assoc).
    f_equal. unfold os_path.normpath_step.
    rewrite decide_False by tauto.
    by rewrite (bool_decide_eq_true_2 (comp <> lit "..")) by done.
Qed.

Lemma normpath_fold_empties k (n : nat) cs acc :
  fold_left (os_path.normpath_step k) (repeat [] n ++ cs) acc
  = fold_left (os_path.normpath_step k) cs acc.
Proof. induction n as [|n IH]; simpl; [done|]. apply IH. Qed.

Lemma join_plain_head cs :
  Forall plain cs -> Py.startswith (Py.join os_path.sep cs) [os_path.sep] = false.
Proof.
  intros Hcs. destruct Hcs as [|comp cs (Hne & _ & _ & Hsep) _]; [done|].
  destruct comp as [|x comp]; [done|].
  apply not_elem_of_cons in Hsep as [Hx _].
  destruct cs; simpl; by rewrite decide_False.
Qed.

Lemma initial_slashes_render k cs :
  k = 1%nat \/ k = 2%nat -> Forall plain cs ->
  os_path.initial_slashes (render k cs) = k.
Proof.
  intros Hk Hcs. pose proof (join_plain_head cs Hcs) as Hhead.
  unfold os_path.initial_slashes, render.
  destruct Hk as [-> | ->]; simpl.
  - destruct (Py.join os_path.sep cs) as [|x j]; [done|].
    by rewrite Hhead.
  - destruct (Py.join os_path.sep cs) as [|x j]; [done|].
    by rewrite Hhead.
Qed.

Lemma initial_slashes_abs p :
  os_path.isabs p = true ->
  os_path.initial_slashes p = 1%nat \/ os_path.initial_slashes p = 2%nat.
Proof.
  unfold os_path.isabs, os_path.initial_slashes. intros ->.
  destruct (_ && _); auto.
Qed.

(** The normal form of an absolute path: one or two separators, and names
    joined by separators. *)
Lemma normpath_abs_shape p :
  os_path.isabs p = true ->
  exists k cs, (k = 1%nat \/ k = 2%nat) /\ Forall plain cs /\
    os_path.normpath p = render k cs.
Proof.
  intros Habs. pose proof (initial_slashes_abs p Habs) as Hk.
  exists (os_path.initial_slashes p),
    (fold_left (os_path.normpath_step (os_path.initial_slashes p))
       (Py.split p os_path.sep) []).
  split; [done|]. split.
  - apply normpath_fold_plain; [lia | apply split_pieces_notin | constructor].
  - unfold os_path.normpath, render. destruct p as [|x p]; [done|].
    cbv zeta. by destruct Hk as [-> | ->].
Qed.

Lemma normpath_nonempty p :
  p <> [] ->
  os_path.normpath p =
    let new_comps :=
      fold_left (os_path.normpath_step (os_path.initial_slashes p))
                (Py.split p os_path.sep) [] in
    match repeat os_path.sep (os_path.initial_slashes p)
          ++ Py.join os_path.sep new_comps with
    | [] => lit "."
    | path' => path'
    end.
Proof.
  destruct p as [|x p]; [done|]. intros _.
  unfold os_path.normpath. cbv zeta. by destruct (repeat _ _ ++ _).
Qed.

(** The components a normal form is cut into and normalized to. *)
Lemma normpath_comps_render k cs :
  Forall plain cs ->
  fold_left (os_path.normpath_step k)
            (Py.split (render k cs) os_path.sep) [] = cs.
Proof.
  intros Hcs. unfold render.
  rewrite split_repeat_sep, normpath_fold_empties.
  destruct cs as [|comp cs]; [done|].
  rewrite split_join, normpath_fold_names; [done | done | done |].
  eapply Forall_impl; [done|]. apply plain_notin.
Qed.

(** A normal form is left as it is. *)
Lemma normpath_render k cs :
  k = 1%nat \/ k = 2%nat -> Forall plain cs ->
  os_path.normpath (render k cs) = render k cs.
Proof.
  intros Hk Hcs.
  rewrite normpath_nonempty
    by (unfold render; by destruct Hk as [-> | ->]).
  cbv zeta.
  rewrite initial_slashes_render, normpath_comps_render by done.
  fold (render k cs). unfold render. by destruct Hk as [-> | ->].
Qed.

Lemma getcwd_abs (s : fs) : exists r, os_path.getcwd s = os_path.sep :: r.
Proof. unfold os_path.getcwd. destruct (cwd s); eauto. Qed.

Lemma abspath_shape (s : fs) p :
  exists k cs, (k = 1%nat \/ k = 2%nat) /\ Forall plain cs /\
    os_path.abspath s p = render k cs.
Proof.
  unfold os_path.abspath.
  destruct (os_path.isabs p) eqn:Habs; [by apply normpath_abs_shape|].
  apply normpath_abs_shape.
  destruct (getcwd_abs s) as [r Hr].
  unfold os_path.join, os_path.join_step, os_path.isabs in *. simpl.
  rewrite Habs, Hr. simpl.
  destruct (Py.endswith _ _); apply startswith_spec; by eexists.
Qed.

(** [abspath] yields a normalized path. *)
Lemma normpath_abspath (s : fs) p :
  os_path.normpath (os_path.abspath s p) = os_path.abspath s p.
Proof.
  destruct (abspath_shape s p) as (k & cs & Hk & Hcs & ->).
  by apply normpath_render.
Qed.

End normpath_properties.

(** ** Path traversal *)

Section traversal.
Implicit Types (p root final : str) (cs : list str).

Lemma components_app_sep p final :
  CAStorage.components (p ++ os_path.sep :: final)
  = CAStorage.components p ++ CAStorage.components final.
Proof. unfold CAStorage.components. by rewrite split_app, List.filter_app. Qed.

Lemma components_seps p :
  Forall (fun x => x = os_path.sep) p -> CAStorage.components p = [].
Proof.
  intros Hp. apply split_all_empty in Hp. unfold CAStorage.components.
  induction Hp as [|part parts -> _ IH]; [done|]. by simpl.
Qed.

Lemma components_names cs :
  Forall plain cs ->
  List.filter (fun part : str => negb (bool_decide (part = []))) cs = cs.
Proof.
  induction 1 as [|part cs (Hne & _) _ IH]; simpl; [done|].
  rewrite bool_decide_eq_false_2 by done. simpl. by rewrite IH.
Qed.

(** The components of a normal form are its names. *)
Lemma components_render (k : nat) cs :
  Forall plain cs -> CAStorage.components (render k cs) = cs.
Proof.
  intros Hcs. unfold CAStorage.components, render.
  rewrite split_repeat_sep, List.filter_app.
  assert (List.filter (fun part : str => negb (bool_decide (part = [])))
            (repeat [] k) = []) as ->.
  { induction k; [done|]. by simpl. }
  destruct cs as [|part cs]; [done|].
  rewrite split_join; [by apply components_names | done |].
  eapply Forall_impl; [done|]. apply plain_notin.
Qed.

(** A path located inside the base path, as strings, lies below it in the
    tree: its components start with those of the base path. *)
Lemma located_inside_components root final :
  located_inside root final ->
  CAStorage.components root `prefix_of` CAStorage.components final.
Proof.
  intros [Hstarts | [-> | Htop]].
  - apply startswith_spec in Hstarts as [post ->].
    rewrite <- app_assoc. simpl. rewrite components_app_sep.
    by apply prefix_app_r.
  - done.
  - apply dirname_fixpoint in Htop. rewrite components_seps by done.
    apply prefix_nil.
Qed.

#[local] Instance located_inside_dec root final :
  Decision (located_inside root final).
Proof. unfold located_inside. apply _. Defined.

Lemma safe_join_inside (s : fs) (base : str) (paths : list str) :
  located_inside (os_path.abspath s base)
                 (os_path.abspath s (os_path.join base paths)) ->
  django.safe_join s base paths
  = Ok (os_path.abspath s (os_path.join base paths)).
Proof.
  unfold django.safe_join, django.normcase, located_inside. cbv zeta.
  intros [Hstarts | [Heq | Htop]].
  - by rewrite Hstarts.
  - rewrite (bool_decide_eq_false_2 (_ <> os_path.abspath s base))
      by (by intros Hne).
    by rewrite andb_false_r.
  - rewrite (bool_decide_eq_false_2 (os_path.dirname _ <> _))
      by (by intros Hne).
    by rewrite andb_false_r.
Qed.

Lemma safe_join_outside (s : fs) (base : str) (paths : list str) :
  ~ located_inside (os_path.abspath s base)
                   (os_path.abspath s (os_path.join base paths)) ->
  django.safe_join s base paths = Raise SuspiciousFileOperation.
Proof.
  unfold django.safe_join, django.normcase, located_inside. cbv zeta.
  intros Hout.
  destruct (Py.startswith _ _) eqn:Hstarts; [tauto|].
  rewrite !bool_decide_eq_true_2; [done | tauto | tauto].
Qed.

End traversal.

(** The example of the specification: a name made to climb out of the
    root is refused. *)
Example path_refuses_climbing :
  fst (CAStorage.path example_storage (lit "../../etc/passwd") example_fs)
    = Raise SuspiciousFileOperation /\
  fst (CAStorage.path example_storage (lit "1f09d3") example_fs)
    = Ok (lit "/data/1f/09/1f09d3").
Proof. split; vm_compute; reflexivity. Qed.

(** C5: path traversal safety.  Let [joined] be the shard segments of the
    name joined onto the configured root, made absolute and normalized.
    If [joined] is located outside the root (as normalized paths are
    compared), [path] fails with an exception that is a
    [SuspiciousOperation]; if it is located inside, [path] returns
    [joined], which is a normalized path.  Whatever path [path] returns
    lies below the root in the tree: a [joined] whose components do not
    start with those of the root is always refused. *)
Theorem path_traversal_safety (self : CAStorage.t) (name : str) (s : fs) :
  let joined :=
    os_path.abspath s
      (os_path.join (CAStorage.location self) (CAStorage.shard self name)) in
  let root := os_path.abspath s (CAStorage.location self) in
  (~ located_inside root joined ->
     exists e, CAStorage.path self name s = (Raise e, s) /\
               isinstance e SuspiciousOperation = true) /\
  (located_inside root joined ->
     CAStorage.path self name s = (Ok joined, s) /\
     os_path.normpath joined = joined) /\
  (forall p, CAStorage.path self name s = (Ok p, s) ->
     CAStorage.components root `prefix_of` CAStorage.components p) /\
  (~ CAStorage.components root `prefix_of` CAStorage.components joined ->
     exists e, CAStorage.path self name s = (Raise e, s) /\
               isinstance e SuspiciousOperation = true).
Proof.
  intros joined root.
  assert (located_inside root joined ->
          CAStorage.path self name s = (Ok joined, s)) as Hin.
  { intros Hloc. unfold CAStorage.path, reading.
    rewrite safe_join_inside by done.
    unfold django.smart_str. by rewrite normpath_abspath. }
  assert (~ located_inside root joined ->
          CAStorage.path self name s = (Raise SuspiciousFileOperation, s))
    as Hout.
  { intros Hloc. unfold CAStorage.path, reading.
    by rewrite safe_join_outside by done. }
  split; [|split; [|split]].
  - intros Hloc. exists SuspiciousFileOperation. by rewrite Hout.
  - intros Hloc. split; [by apply Hin | apply normpath_abspath].
  - intros p Hp. destruct (decide (located_inside root joined)) as [Hloc|Hloc].
    + rewrite Hin in Hp by done. injection Hp as <-.
      by apply located_inside_components.
    + by rewrite Hout in Hp.
  - intros Hcomp. exists SuspiciousFileOperation. split; [|done].
    apply Hout. intros Hloc. by apply Hcomp, located_inside_components.
Qed.

(** ** The file system *)

Section fs_lemmas.
Implicit Types (m : gmap loc node) (d l : loc) (x : str) (s : fs).

Lemma wf_parent m d x : wf m -> is_Some (m !! (d ++ [x])) -> m !! d = Some Dir.
Proof.
  intros [_ Hwf] [n Hn]. pose proof (Hwf _ _ Hn) as Hdir. cbv beta in Hdir.
  by rewrite removelast_last in Hdir.
Qed.

(** In a well-formed tree everything above a node is a directory. *)
Lemma wf_above m l (j : nat) :
  wf m -> is_Some (m !! l) -> (j < length l)%nat -> m !! take j l = Some Dir.
Proof.
  intros Hwf. revert j. induction l as [|x l IH] using rev_ind; intros j Hl Hj.
  - simpl in Hj. lia.
  - rewrite length_app in Hj. simpl in Hj.
    pose proof (wf_parent m l x Hwf Hl) as Hd.
    rewrite take_app_le by lia.
    destruct (decide (j = length l)) as [-> | Hne].
    + by rewrite take_ge.
    + apply IH; [by rewrite Hd | lia].
Qed.

(** Removing a node that has nothing below it keeps the tree well formed. *)
Lemma wf_delete_leaf m d :
  wf m -> d <> [] -> (forall x, m !! (d ++ [x]) = None) -> wf (delete d m).
Proof.
  intros [Htop Hwf] Hd Hleaf. split; [by rewrite lookup_delete_ne|].
  intros k n Hk.
  apply lookup_delete_Some in Hk as [Hne Hk].
  pose proof (Hwf _ _ Hk) as Hdir. cbv beta in Hdir |- *.
  rewrite lookup_delete_ne; [done|].
  intros ->.
  destruct k as [|y k _] using rev_ind; [done|].
  specialize (Hleaf y). rewrite removelast_last in Hleaf. congruence.
Qed.

(** A file has nothing below it. *)
Lemma wf_file_leaf m l (content : bytes) :
  wf m -> m !! l = Some (Reg content) -> forall x, m !! (l ++ [x]) = None.
Proof.
  intros Hwf Hl x. destruct (m !! (l ++ [x])) eqn:Hx; [|done].
  pose proof (wf_parent m l x Hwf (mk_is_Some _ _ Hx)). congruence.
Qed.

Lemma elem_of_entries m d x :
  x ∈ Fs.entries m d <-> is_Some (m !! (d ++ [x])).
Proof.
  unfold Fs.entries. rewrite list_elem_of_omap. split.
  - intros (k & Hk & Hf). case_decide as Hd; [|done].
    apply last_Some in Hf as [k' ->].
    rewrite removelast_last in Hd. subst k'.
    by apply elem_of_elements, elem_of_dom in Hk.
  - intros Hx. exists (d ++ [x]). split.
    + by apply elem_of_elements, elem_of_dom.
    + rewrite decide_True by apply removelast_last. apply last_snoc.
Qed.

Lemma entries_nil m d :
  Fs.entries m d = [] <-> forall x, m !! (d ++ [x]) = None.
Proof.
  split.
  - intros Hnil x. apply eq_None_not_Some.
    rewrite <- elem_of_entries, Hnil. apply not_elem_of_nil.
  - intros Hnone. destruct (Fs.entries m d) as [|x xs] eqn:He; [done|].
    assert (x ∈ Fs.entries m d) as Hx by (rewrite He; left).
    apply elem_of_entries in Hx. rewrite Hnone in Hx. by destruct Hx.
Qed.

(** The walk over names goes down along them. *)
Lemma walk_names m d (names : list str) :
  Forall plain names ->
  (forall j : nat, (j < length names)%nat ->
                   m !! (d ++ take j names) = Some Dir) ->
  is_Some (m !! (d ++ names)) ->
  Fs.walk m d names = Ok (d ++ names).
Proof.
  intros Hnames. revert d.
  induction Hnames as [|x names (Hne & Hd & Hdd & _) _ IH];
    intros d Hdirs Hlast; simpl.
  - by rewrite app_nil_r.
  - pose proof (Hdirs 0%nat ltac:(simpl; lia)) as H0.
    simpl in H0. rewrite app_nil_r in H0. rewrite H0.
    rewrite decide_False by tauto. rewrite decide_False by done.
    assert (is_Some (m !! (d ++ [x]))) as [n Hn].
    { destruct names as [|y names].
      - done.
      - pose proof (Hdirs 1%nat ltac:(simpl; lia)) as H1.
        simpl in H1. by rewrite H1. }
    rewrite Hn.
    replace (d ++ x :: names) with ((d ++ [x]) ++ names)
      by (by rewrite <- app_assoc).
    apply IH.
    + intros j Hj. rewrite <- app_assoc. simpl.
      apply (Hdirs (S j)). simpl. lia.
    + by rewrite <- app_assoc.
Qed.

Lemma walk_empties m d (n : nat) (rest : list str) :
  m !! d = Some Dir ->
  Fs.walk m d (repeat [] n ++ rest) = Fs.walk m d rest.
Proof.
  intros Hd. induction n as [|n IH]; simpl; [done|]. by rewrite Hd.
Qed.

(** A normal form names the location with its components, when the way
    down to it exists. *)
Lemma resolve_render s (k : nat) l :
  k = 1%nat \/ k = 2%nat -> Forall plain l ->
  wf (nodes s) -> is_Some (nodes s !! l) ->
  Fs.resolve s (render k l) = Ok l.
Proof.
  intros Hk Hl Hwf Hsome.
  pose proof (proj1 Hwf) as Htop'.
  unfold Fs.resolve.
  assert (exists y r, render k l = y :: r /\
            Py.startswith (render k l) (lit "/") = true) as (y & r & Hr & Hs).
  { unfold render.
    destruct Hk as [-> | ->]; (eexists _, _; split; [reflexivity|]);
      apply startswith_spec; by eexists. }
  rewrite Hr, <- Hr, Hs.
  unfold render. rewrite split_repeat_sep, walk_empties by done.
  destruct l as [|x l].
  - simpl. by rewrite Htop'.
  - rewrite split_join; [| done |
      by eapply Forall_impl; [done | apply plain_notin]].
    apply (walk_names (nodes s) [] (x :: l)); [done | | done].
    intros j Hj. simpl. by apply wf_above.
Qed.

End fs_lemmas.

(** ** Normal forms in the file system *)

Section render_lemmas.
Implicit Types (k : nat) (P l : loc) (part : str) (s : fs).

Lemma join_snoc P part :
  P <> [] ->
  Py.join os_path.sep (P ++ [part])
  = Py.join os_path.sep P ++ os_path.sep :: part.
Proof.
  induction P as [|q P IH]; intros Hne; [done|].
  destruct P as [|q' P]; [done|].
  change (Py.join os_path.sep ((q :: q' :: P) ++ [part]))
    with (q ++ os_path.sep :: Py.join os_path.sep ((q' :: P) ++ [part])).
  rewrite IH by done.
  change (Py.join os_path.sep (q :: q' :: P))
    with (q ++ os_path.sep :: Py.join os_path.sep (q' :: P)).
  by rewrite <- app_assoc.
Qed.

Lemma render_snoc k P part :
  P <> [] -> render k (P ++ [part]) = render k P ++ os_path.sep :: part.
Proof. intros. unfold render. by rewrite join_snoc, app_assoc. Qed.

Lemma render_single k part :
  render (S k) [part] = repeat os_path.sep k ++ os_path.sep :: part.
Proof.
  unfold render. simpl Py.join.
  change (repeat os_path.sep (S k)) with (os_path.sep :: repeat os_path.sep k).
  by rewrite repeat_cons, <- app_assoc.
Qed.

Lemma render_top k : render (S k) [] = repeat os_path.sep k ++ [os_path.sep].
Proof.
  unfold render. simpl Py.join. rewrite app_nil_r.
  change (repeat os_path.sep (S k)) with (os_path.sep :: repeat os_path.sep k).
  apply repeat_cons.
Qed.

(** A normal form with a name in it ends in a character of that name. *)
Lemma render_ends k P :
  P <> [] -> Forall plain P ->
  exists pre x, render k P = pre ++ [x] /\ x <> os_path.sep.
Proof.
  intros Hne HP. destruct P as [|part P _] using rev_ind; [done|].
  apply Forall_app in HP as [_ Hpart].
  apply Forall_cons in Hpart as [(Hpne & _ & _ & Hsep) _].
  destruct part as [|y part _] using rev_ind; [done|].
  apply not_elem_of_app in Hsep as [_ Hy].
  apply not_elem_of_cons in Hy as [Hy _].
  exists (match P with
          | [] => repeat os_path.sep k ++ part
          | _ => render k P ++ os_path.sep :: part
          end), y.
  split; [|done].
  destruct P as [|q P].
  - unfold render. simpl. by rewrite app_assoc.
  - rewrite render_snoc by done. by rewrite <- app_assoc.
Qed.

Lemma dirname_render k P part :
  k = 1%nat \/ k = 2%nat -> Forall plain (P ++ [part]) ->
  os_path.dirname (render k (P ++ [part])) = render k P.
Proof.
  intros Hk HP. apply Forall_app in HP as [HP Hpart].
  apply Forall_cons in Hpart as [(_ & _ & _ & Hsep) _].
  destruct P as [|q P].
  - assert (exists k', k = S k') as [k' ->] by (destruct Hk; subst; eauto).
    simpl app. rewrite render_single, dirname_last_sep by done.
    rewrite bool_decide_eq_true_2.
    + by rewrite render_top.
    + apply Forall_forall. intros x Hx.
      by apply list_elem_of_In, repeat_spec in Hx.
  - rewrite render_snoc, dirname_last_sep by done.
    destruct (render_ends k (q :: P)) as (pre & x & -> & Hx); [done | done |].
    rewrite bool_decide_eq_false_2.
    + by apply rstrip_keeps.
    + intros Hall. apply Forall_app in Hall as [_ Hall].
      by apply Forall_cons in Hall as [? _].
Qed.

Lemma stat_render s k P :
  k = 1%nat \/ k = 2%nat -> Forall plain P -> wf (nodes s) ->
  nodes s !! P = Some Dir ->
  Fs.stat (render k P) s = (Ok (Fs.StatResult P true), s).
Proof.
  intros Hk HP Hwf Hdir. unfold Fs.stat, reading.
  rewrite resolve_render by (done || by rewrite Hdir). by rewrite Hdir.
Qed.

Lemma listdir_render s k P :
  k = 1%nat \/ k = 2%nat -> Forall plain P -> wf (nodes s) ->
  nodes s !! P = Some Dir ->
  Fs.listdir (render k P) s = (Ok (Fs.entries (nodes s) P), s).
Proof.
  intros Hk HP Hwf Hdir. unfold Fs.listdir, reading.
  rewrite resolve_render by (done || by rewrite Hdir). by rewrite Hdir.
Qed.

Lemma rmdir_render s k P :
  k = 1%nat \/ k = 2%nat -> Forall plain P -> wf (nodes s) ->
  nodes s !! P = Some Dir -> P <> [] -> Fs.entries (nodes s) P = [] ->
  Fs.rmdir (render k P) s
  = (Ok tt, changed s (delete P (nodes s)) (RemovedDir P)).
Proof.
  intros Hk HP Hwf Hdir Hne Hempty. unfold Fs.rmdir.
  rewrite resolve_render by (done || by rewrite Hdir).
  rewrite Hdir. destruct P; [done|]. by rewrite Hempty.
Qed.

Lemma unlink_render s k l (content : bytes) :
  k = 1%nat \/ k = 2%nat -> Forall plain l -> wf (nodes s) ->
  nodes s !! l = Some (Reg content) ->
  Fs.unlink (render k l) s
  = (Ok tt, changed s (delete l (nodes s)) (Unlinked l)).
Proof.
  intros Hk Hl Hwf Hreg. unfold Fs.unlink.
  rewrite resolve_render by (done || by rewrite Hreg). by rewrite Hreg.
Qed.

End render_lemmas.

(** ** What a pruning walk leaves *)

Section pruned_lemmas.
Implicit Types (R d x : loc) (m : gmap loc node) (ds : list loc).

Lemma pruned_lookup R d m m' ds x :
  pruned R d m m' ds ->
  m' !! x = if decide (x ∈ ds) then None else m !! x.
Proof.
  induction 1 as [m | d m y Hd Hy | d m m' ds Hd Hdir Hempty _ IH].
  - by rewrite decide_False by apply not_elem_of_nil.
  - by rewrite decide_False by apply not_elem_of_nil.
  - rewrite IH. destruct (decide (x = d)) as [-> | Hne].
    + rewrite lookup_delete_eq. rewrite (decide_True (P := d ∈ d :: ds)) by left.
      by case_decide.
    + rewrite lookup_delete_ne by done.
      apply decide_ext. rewrite elem_of_cons. tauto.
Qed.

Lemma prefix_removelast d : removelast d `prefix_of` d.
Proof.
  destruct d as [|y d _] using rev_ind; [done|].
  rewrite removelast_last. by apply prefix_app_r.
Qed.

(** The directories removed are directories on the way up from the start,
    none of them the root. *)
Lemma pruned_removed R d m m' ds x :
  pruned R d m m' ds -> x ∈ ds ->
  x <> R /\ x `prefix_of` d /\ m !! x = Some Dir.
Proof.
  induction 1 as [m | d m y Hd Hy | d m m' ds Hd Hdir Hempty _ IH];
    intros Hx.
  - by apply not_elem_of_nil in Hx.
  - by apply not_elem_of_nil in Hx.
  - apply elem_of_cons in Hx as [-> | Hx]; [done|].
    destruct (IH Hx) as (HR & Hpre & Hdel).
    apply lookup_delete_Some in Hdel as [_ Hm].
    split; [done|]. split; [|done].
    etrans; [done | apply prefix_removelast].
Qed.

End pruned_lemmas.

(** ** Removal of a file and of its empty parents *)

Section prune_properties.
Implicit Types (k : nat) (P l : loc) (s : fs) (root : str).

Lemma join_length (cs : list str) :
  Forall plain cs -> (length cs <= length (Py.join os_path.sep cs))%nat.
Proof.
  induction 1 as [|part cs (Hne & _) _ IH]; [done|].
  destruct cs as [|part' cs].
  - destruct part; [done | simpl; lia].
  - change (Py.join os_path.sep (part :: part' :: cs))
      with (part ++ os_path.sep :: Py.join os_path.sep (part' :: cs)).
    rewrite length_app. simpl in *. lia.
Qed.

Lemma render_length k l :
  Forall plain l -> (length l <= length (render k l))%nat.
Proof.
  intros Hl. unfold render. rewrite length_app.
  pose proof (join_length l Hl). lia.
Qed.

(** The loop, started at a directory given in normal form: it returns, and
    what it does is a pruning walk up to the root. *)
Lemma prune_render k root (rs : Fs.stat_result) P :
  k = 1%nat \/ k = 2%nat -> root <> [] -> Forall plain P ->
  forall (fuel : nat) s,
    (length P < fuel)%nat ->
    wf (nodes s) ->
    nodes s !! Fs.st_ino rs = Some Dir ->
    nodes s !! P = Some Dir ->
    exists s' ds,
      utils.prune fuel (Some root) (Some rs) (render k P) s = (Ok tt, s') /\
      pruned (Fs.st_ino rs) P (nodes s) (nodes s') ds /\
      log s' = (RemovedDir <$> reverse ds) ++ log s.
Proof.
  intros Hk Hroot.
  assert (utils.truthy (Some root) = true) as Htruthy by (by destruct root).
  induction P as [|part P IH] using rev_ind;
    intros HP fuel s Hfuel Hwf HR Hdir;
    (destruct fuel as [|fuel]; [lia|]); simpl utils.prune.
  - (* at the top directory *)
    unfold utils.keep_pruning. rewrite Htruthy.
    rewrite (bind_eq _ _ s s (negb (os_path.samestat rs (Fs.StatResult [] true))))
      by (unfold bind; by rewrite stat_render).
    unfold os_path.samestat. simpl.
    case_bool_decide as Hsame; simpl.
    + exists s, []. rewrite Hsame. split; [done|]. split; [constructor | done].
    + rewrite (bind_eq _ _ s s (Fs.entries (nodes s) []))
        by (by apply listdir_render).
      destruct (Fs.st_ino rs) as [|r R'] eqn:HRloc; [done|].
      assert (is_Some (nodes s !! ([] ++ [r]))) as Hr.
      { simpl. destruct R' as [|r' R'].
        - by rewrite HR.
        - pose proof (wf_above (nodes s) (r :: r' :: R') 1 Hwf
                        ltac:(by rewrite HR) ltac:(simpl; lia)) as H1.
          simpl in H1. by rewrite H1. }
      destruct (Fs.entries (nodes s) []) as [|y ys] eqn:He.
      * apply elem_of_entries in Hr. rewrite He in Hr.
        by apply not_elem_of_nil in Hr.
      * exists s, []. split; [done|]. split; [|done].
        apply (pruned_nonempty _ _ _ y); [done|].
        apply elem_of_entries. rewrite He. left.
  - (* at a directory below the top *)
    pose proof HP as HP'. apply Forall_app in HP' as [HP' _].
    unfold utils.keep_pruning. rewrite Htruthy.
    rewrite (bind_eq _ _ s s
               (negb (os_path.samestat rs (Fs.StatResult (P ++ [part]) true))))
      by (unfold bind; by rewrite stat_render).
    unfold os_path.samestat. simpl.
    case_bool_decide as Hsame; simpl.
    + exists s, []. rewrite Hsame. split; [done|]. split; [constructor | done].
    + rewrite (bind_eq _ _ s s (Fs.entries (nodes s) (P ++ [part])))
        by (by apply listdir_render).
      destruct (Fs.entries (nodes s) (P ++ [part])) as [|y ys] eqn:He.
      * (* empty: removed, and the walk goes on from the parent *)
        pose proof (proj1 (entries_nil _ _) He) as Hleaf.
        rewrite (bind_eq _ _ s
                   (changed s (delete (P ++ [part]) (nodes s))
                            (RemovedDir (P ++ [part]))) tt)
          by (apply rmdir_render; (done || by destruct P)).
        rewrite dirname_render by done.
        destruct (IH HP' fuel
                    (changed s (delete (P ++ [part]) (nodes s))
                             (RemovedDir (P ++ [part]))))
          as (s' & ds & Hrun & Hpruned & Hlog).
        -- rewrite length_app in Hfuel. simpl in Hfuel. lia.
        -- apply wf_delete_leaf; [done | by destruct P | done].
        -- simpl. by rewrite lookup_delete_ne by (by intros Heq; apply Hsame).
        -- simpl. rewrite lookup_delete_ne.
           ++ apply (wf_parent _ _ part); [done | by rewrite Hdir].
           ++ intros Heq. apply (f_equal length) in Heq.
              rewrite length_app in Heq. simpl in Heq. lia.
        -- exists s', ((P ++ [part]) :: ds). split; [done|]. split.
           ++ apply pruned_step; [by intros Heq; apply Hsame | done | done |].
              by rewrite removelast_last.
           ++ rewrite Hlog. simpl. rewrite reverse_cons, fmap_app.
              by rewrite <- app_assoc.
      * exists s, []. split; [done|]. split; [|done].
        apply (pruned_nonempty _ _ _ y); [by intros Heq; apply Hsame|].
        apply elem_of_entries. rewrite He. left.
Qed.

End prune_properties.

Section rm_file_properties.
Implicit Types (k : nat) (l : loc) (s : fs) (root : str).

(** What a successful [stat] tells about the tree. *)
Lemma stat_ok (p : str) s s' (rs : Fs.stat_result) :
  Fs.stat p s = (Ok rs, s') ->
  s' = s /\ p <> [] /\
  exists n, nodes s !! Fs.st_ino rs = Some n /\
            (Fs.st_isdir rs = true -> n = Dir).
Proof.
  unfold Fs.stat, reading. intros Hst.
  destruct p as [|c p]; [done|].
  destruct (Fs.resolve s (c :: p)) as [loc0| |]; [|done|done].
  destruct (nodes s !! loc0) as [[|content]|] eqn:Hn; [| |done];
    injection Hst as <- <-; simpl; eauto 6.
  split; [done|]. split; [done|]. exists (Reg content). by split.
Qed.

End rm_file_properties.

(** C6: removal with pruning.  In a well-formed tree, for a file given by
    a normalized absolute path and a root that names a directory (by any
    spelling: only the node it names counts), the call returns normally;
    the file is unlinked; then, walking up from its directory, every
    directory that is empty when its turn comes is removed, and the walk
    stops at the first directory that is the root or is not empty.  The
    root is still there afterwards, only directories above the file were
    removed, and nothing else in the tree has changed. *)
Theorem rm_file_and_empty_parents_prunes (s : fs) (k : nat) (l : loc)
    (content : bytes) (root : str) (rs : Fs.stat_result) :
  k = 1%nat \/ k = 2%nat ->
  Forall plain l ->
  wf (nodes s) ->
  nodes s !! l = Some (Reg content) ->
  Fs.stat root s = (Ok rs, s) ->
  Fs.st_isdir rs = true ->
  exists s' ds,
    utils.rm_file_and_empty_parents (render k l) (Some root) s = (Ok tt, s') /\
    pruned (Fs.st_ino rs) (removelast l) (delete l (nodes s)) (nodes s') ds /\
    nodes s' !! l = None /\
    nodes s' !! Fs.st_ino rs = Some Dir /\
    (forall d, d ∈ ds ->
       d <> Fs.st_ino rs /\ d `prefix_of` l /\ d <> l /\
       nodes s !! d = Some Dir /\ nodes s' !! d = None) /\
    (forall x, x <> l -> x ∉ ds -> nodes s' !! x = nodes s !! x) /\
    log s' = (RemovedDir <$> reverse ds) ++ Unlinked l :: log s.
Proof.
  intros Hk Hl Hwf Hreg Hstat Hisdir.
  destruct (stat_ok _ _ _ _ Hstat) as (_ & Hroot & n & HR & Hn).
  rewrite (Hn Hisdir) in HR. clear n Hn.
  destruct l as [|part P _] using rev_ind.
  { destruct Hwf as [Htop _]. congruence. }
  assert (Fs.st_ino rs <> P ++ [part]) as HRl by congruence.
  assert (nodes s !! P = Some Dir) as HP
    by (apply (wf_parent _ _ part); [done | by rewrite Hreg]).
  assert (P <> P ++ [part]) as HPl.
  { intros Heq. apply (f_equal length) in Heq.
    rewrite length_app in Heq. simpl in Heq. lia. }
  pose proof Hl as HlP. apply Forall_app in HlP as [HlP _].
  set (s1 := changed s (delete (P ++ [part]) (nodes s))
                     (Unlinked (P ++ [part]))).
  destruct (prune_render k root rs P Hk Hroot HlP
              (S (length (render k (P ++ [part])))) s1)
    as (s' & ds & Hrun & Hpruned & Hlog).
  { pose proof (render_length k (P ++ [part]) Hl) as Hlen.
    rewrite length_app in Hlen. simpl in Hlen. lia. }
  { apply wf_delete_leaf; [done | by destruct P | by eapply wf_file_leaf]. }
  { simpl. by rewrite lookup_delete_ne. }
  { simpl. by rewrite lookup_delete_ne. }
  exists s', ds.
  assert (forall d, d ∈ ds -> d <> P ++ [part]) as Hnotl.
  { intros d Hd ->.
    destruct (pruned_removed _ _ _ _ _ _ Hpruned Hd) as (_ & _ & Hdel).
    simpl in Hdel. by rewrite lookup_delete_eq in Hdel. }
  split; [|split; [|split; [|split; [|split; [|split]]]]].
  - unfold utils.rm_file_and_empty_parents.
    assert (utils.truthy (Some root) = true) as -> by (by destruct root).
    rewrite (bind_eq _ _ s s (Some rs))
      by (simpl; unfold bind; by rewrite Hstat).
    rewrite (bind_eq _ _ s s1 tt) by (by eapply unlink_render).
    by rewrite dirname_render.
  - by rewrite removelast_last.
  - rewrite (pruned_lookup _ _ _ _ _ (P ++ [part]) Hpruned).
    case_decide; [done|]. simpl. apply lookup_delete_eq.
  - rewrite (pruned_lookup _ _ _ _ _ (Fs.st_ino rs) Hpruned).
    rewrite decide_False.
    + simpl. by rewrite lookup_delete_ne.
    + intros Hin. by destruct (pruned_removed _ _ _ _ _ _ Hpruned Hin).
  - intros d Hd.
    destruct (pruned_removed _ _ _ _ _ _ Hpruned Hd) as (HdR & Hpre & Hdel).
    simpl in Hdel. apply lookup_delete_Some in Hdel as [Hne Hdir].
    split; [done|]. split; [by apply prefix_app_r|]. split; [done|].
    split; [done|].
    rewrite (pruned_lookup _ _ _ _ _ d Hpruned). by rewrite decide_True.
  - intros x Hx Hnin.
    rewrite (pruned_lookup _ _ _ _ _ x Hpruned), decide_False by done.
    simpl. by rewrite lookup_delete_ne.
  - by rewrite Hlog.
Qed.

Lemma rm_file_and_empty_parents_prunes_witness :
  exists s' ds,
    utils.rm_file_and_empty_parents (render 1 example_file)
      (Some (lit "/data/")) example_fs = (Ok tt, s') /\
    pruned [lit "data"] (removelast example_file)
      (delete example_file (nodes example_fs)) (nodes s') ds /\
    nodes s' !! example_file = None /\
    nodes s' !! [lit "data"] = Some Dir /\
    (forall d, d ∈ ds ->
       d <> [lit "data"] /\ d `prefix_of` example_file /\ d <> example_file /\
       nodes example_fs !! d = Some Dir /\ nodes s' !! d = None) /\
    (forall x, x <> example_file -> x ∉ ds ->
       nodes s' !! x = nodes example_fs !! x) /\
    log s' = (RemovedDir <$> reverse ds) ++ Unlinked example_file
             :: log example_fs.
Proof.
  apply (rm_file_and_empty_parents_prunes example_fs 1 example_file []
           (lit "/data/") (Fs.StatResult [lit "data"] true)).
  - by left.
  - refine (bool_decide_unpack _ _). vm_compute. exact I.
  - refine (bool_decide_unpack _ _). vm_compute. exact I.
  - vm_compute. reflexivity.
  - apply run_eq. vm_compute. reflexivity.
  - reflexivity.
Defined.

(** The example of the specification: with the root [/data], deleting the
    only file below [/data/1f/09] removes [/data/1f/09] and [/data/1f] and
    leaves [/data], now empty, in place. *)
Example prune_stops_at_root :
  let r := utils.rm_file_and_empty_parents (lit "/data/1f/09/1f09d3")
             (Some (lit "/data")) example_fs in
  fst r = Ok tt /\
  nodes (snd r) = list_to_map [([], Dir); ([lit "data"], Dir)] /\
  log (snd r) = [RemovedDir [lit "data"; lit "1f"];
                 RemovedDir [lit "data"; lit "1f"; lit "09"];
                 Unlinked example_file].
Proof. repeat split; vm_compute; reflexivity. Qed.

(** ** Saving *)

Section save_properties.
Implicit Types (self : CAStorage.t) (m : gmap loc node) (l d : loc) (s : fs).

Lemma wf_insert_dir m d :
  wf m -> m !! removelast d = Some Dir -> wf (<[d := Dir]> m).
Proof.
  intros [Htop Hwf] Hparent. split.
  { destruct (decide (d = [])) as [-> | Hne];
      [apply lookup_insert_eq | by rewrite lookup_insert_ne]. }
  intros k n Hk. cbv beta.
  destruct (decide (removelast k = d)) as [<- | Hne].
  - apply lookup_insert_eq.
  - rewrite lookup_insert_ne by done.
    apply lookup_insert_Some in Hk as [[<- _] | [_ Hk]]; [done|].
    apply (Hwf _ _ Hk).
Qed.

Lemma wf_insert_reg m l (data : bytes) :
  wf m -> m !! removelast l = Some Dir -> l <> [] ->
  (forall x, m !! (l ++ [x]) = None) ->
  wf (<[l := Reg data]> m).
Proof.
  intros [Htop Hwf] Hparent Hne Hleaf.
  split; [by rewrite lookup_insert_ne|].
  intros k n Hk. cbv beta.
  assert (removelast l <> l) as Hrl.
  { destruct l as [|y l _] using rev_ind; [done|].
    rewrite removelast_last. intros Heq. apply (f_equal length) in Heq.
    rewrite length_app in Heq. simpl in Heq. lia. }
  apply lookup_insert_Some in Hk as [[<- _] | [Hkl Hk]].
  - by rewrite lookup_insert_ne.
  - rewrite lookup_insert_ne; [apply (Hwf _ _ Hk)|].
    intros Heq. destruct k as [|y k _] using rev_ind.
    + simpl in Heq. done.
    + rewrite removelast_last in Heq. subst k. by rewrite Hleaf in Hk.
Qed.

Lemma writes_changed s m (e : event) :
  writes (changed s m e) = (if is_write e then S (writes s) else writes s).
Proof. unfold writes, changed. simpl. by destruct (is_write e). Qed.

(** [makedirs] keeps the tree well formed, makes its directories and
    writes no file. *)
Lemma makedirs_from_spec (todo : list str) :
  forall d s s',
    wf (nodes s) -> nodes s !! d = Some Dir ->
    Fs.makedirs_from d todo s = (Ok tt, s') ->
    wf (nodes s') /\ nodes s' !! (d ++ todo) = Some Dir /\
    cwd s' = cwd s /\ writes s' = writes s.
Proof.
  induction todo as [|c todo IH]; intros d s s' Hwf Hd Hrun; simpl in Hrun.
  - injection Hrun as <-. by rewrite app_nil_r.
  - apply bind_ok in Hrun as ([] & s0 & Hfirst & Hrest).
    replace (d ++ c :: todo) with ((d ++ [c]) ++ todo)
      by (by rewrite <- app_assoc).
    destruct (nodes s !! (d ++ [c])) as [[|content]|] eqn:Hdc;
      [| done |]; injection Hfirst as <-.
    + by apply IH.
    + destruct (IH (d ++ [c])
                  (changed s (<[d ++ [c] := Dir]> (nodes s))
                           (MadeDir (d ++ [c]))) s'
                  ltac:(simpl; apply wf_insert_dir;
                        [done | by rewrite removelast_last])
                  ltac:(simpl; apply lookup_insert_eq) Hrest)
        as (? & ? & ? & Hw).
      by rewrite writes_changed in Hw.
Qed.

Lemma write_at_spec l (data : bytes) s s' :
  wf (nodes s) ->
  Fs.write_at l data s = (Ok tt, s') ->
  wf (nodes s') /\ nodes s' !! l = Some (Reg data) /\
  cwd s' = cwd s /\ writes s' = S (writes s).
Proof.
  unfold Fs.write_at. intros Hwf Hrun.
  destruct (nodes s !! removelast l) as [[|c0]|] eqn:Hparent; [| done | done].
  assert (l <> [] /\ nodes s !! l <> Some Dir /\
          s' = changed s (<[l := Reg data]> (nodes s)) (Wrote l))
    as (Hne & Hnd & ->).
  { destruct (nodes s !! l) as [[|c1]|]; [done | |];
      (destruct l; [done|]); injection Hrun as <-; done. }
  split; [|split; [|split]].
  - simpl. apply wf_insert_reg; [done | done | done |].
    intros x. destruct (nodes s !! (l ++ [x])) eqn:Hx; [|done].
    destruct Hnd. apply (wf_parent _ _ x); [done | by rewrite Hx].
  - simpl. apply lookup_insert_eq.
  - done.
  - by rewrite writes_changed.
Qed.

(** Path resolution raises nothing but "not found" and "not a directory",
    so [exists] always answers. *)
Lemma walk_outcome m d (comps : list str) :
  (exists l, Fs.walk m d comps = Ok l) \/
  Fs.walk m d comps = Raise FileNotFoundError \/
  Fs.walk m d comps = Raise NotADirectoryError.
Proof.
  revert d. induction comps as [|c comps IH]; intros d; simpl; [eauto|].
  destruct (m !! d) as [[|c0]|]; [| auto | auto].
  repeat case_decide; [done | done |].
  destruct (m !! (d ++ [c])); [done | auto].
Qed.

Lemma exists_total (p : str) s :
  exists present, os_path.exists_ p s = (Ok present, s).
Proof.
  unfold os_path.exists_, Fs.stat, reading, Fs.resolve.
  destruct p as [|c p]; [by eexists|].
  destruct (walk_outcome (nodes s)
              (if Py.startswith (c :: p) (lit "/") then [] else cwd s)
              (Py.split (c :: p) "/")) as [[l ->] | [-> | ->]];
    [| by eexists | by eexists].
  destruct (nodes s !! l) as [[|c0]|]; by eexists.
Qed.

(** Paths are made absolute against the working directory, and against
    nothing else of the machine. *)
Lemma path_cwd self (name : str) s s' :
  cwd s' = cwd s ->
  fst (CAStorage.path self name s') = fst (CAStorage.path self name s).
Proof.
  intros Hcwd. unfold CAStorage.path, reading, django.safe_join,
    os_path.abspath, os_path.getcwd. simpl. by rewrite Hcwd.
Qed.

(** What [path] returns is a normal form. *)
Lemma path_shape self (name p : str) s :
  CAStorage.path self name s = (Ok p, s) ->
  exists (k : nat) cs, (k = 1%nat \/ k = 2%nat) /\ Forall plain cs /\
    p = render k cs.
Proof.
  unfold CAStorage.path, reading, django.safe_join, django.smart_str.
  cbv zeta. intros Hp.
  destruct (_ && _) in Hp; [by destruct (isinstance _ _)|].
  injection Hp as <-. rewrite normpath_abspath. apply abspath_shape.
Qed.

(** The digest of an upload held in memory does not depend on the
    machine. *)
Lemma digest_in_memory self (content : File) s s' :
  temporary_file_path content = None ->
  fst (CAStorage.digest self content s') = fst (CAStorage.digest self content s).
Proof.
  intros Hmem. unfold CAStorage.digest. rewrite Hmem. simpl.
  unfold bind, lift. by destruct (utils.hash_chunks _).
Qed.

(** [_save], once the digest and the path are known. *)
Lemma save_unfold self (name : str) (content content' : File) s (d p : str) :
  CAStorage.digest self content s = (Ok (d, content'), s) ->
  CAStorage.path self (stored_name self name d) s = (Ok p, s) ->
  CAStorage._save self name content s =
    (let* present := os_path.exists_ p in
     if present then ret (stored_name self name d)
     else CAStorage.FileSystemStorage_save self (stored_name self name d)
            content') s.
Proof.
  intros Hd Hp. unfold CAStorage._save.
  rewrite (bind_eq _ _ _ _ _ Hd). simpl fst. simpl snd.
  fold (stored_name self name d).
  by rewrite (bind_eq _ _ _ _ _ Hp).
Qed.

(** After the parent class has saved a file, the file is there. *)
Lemma FileSystemStorage_save_spec self (name p : str) (content : File)
    s s' (r : str) :
  wf (nodes s) ->
  CAStorage.path self name s = (Ok p, s) ->
  CAStorage.FileSystemStorage_save self name content s = (Ok r, s') ->
  r = name /\ cwd s' = cwd s /\ writes s' = S (writes s) /\
  wf (nodes s') /\ os_path.exists_ p s' = (Ok true, s').
Proof.
  intros Hwf Hp Hrun.
  unfold CAStorage.FileSystemStorage_save in Hrun.
  rewrite (bind_eq _ _ _ _ _ Hp) in Hrun.
  apply bind_ok in Hrun as ([] & s0 & Hmk & Hrun).
  apply bind_ok in Hrun as ([] & s1 & Hwr & Hrun).
  injection Hrun as <- <-.
  destruct (path_shape _ _ _ _ Hp) as (k & cs & Hk & Hcs & ->).
  rewrite components_render in * by done.
  pose proof (proj1 Hwf) as Htop.
  destruct (makedirs_from_spec _ _ _ _ Hwf Htop Hmk) as (Hwf0 & _ & Hc0 & Hw0).
  destruct (write_at_spec _ _ _ _ Hwf0 Hwr) as (Hwf1 & Hreg & Hc1 & Hw1).
  split; [done|]. split; [congruence|]. split; [congruence|].
  split; [done|].
  unfold os_path.exists_, Fs.stat, reading.
  rewrite resolve_render by (done || by rewrite Hreg). by rewrite Hreg.
Qed.

End save_properties.

(** Idempotent save, for a content whose digest is computed (which it is
    for every upload held in memory).  Let [d] be the digest of the content
    and [p] the physical path of the stored name.  If something exists at [p], [save]
    returns the stored name and leaves the machine exactly as it was: no
    write, no change at all.  And whenever [save] returns, in a well-formed
    tree, it returns the stored name; it has made exactly one physical
    write if nothing was at [p] before; and a further [save] of a content
    with the same stored name (the same upload again, if it is held in
    memory) returns the same name and changes nothing, so that the two
    calls make one write together. *)
Theorem save_idempotent (self : CAStorage.t) (name : str)
    (content content' : File) (s : fs) (d p : str) :
  CAStorage.digest self content s = (Ok (d, content'), s) ->
  CAStorage.path self (stored_name self name d) s = (Ok p, s) ->
  (os_path.exists_ p s = (Ok true, s) ->
   CAStorage._save self name content s = (Ok (stored_name self name d), s)) /\
  (forall r1 s1,
     wf (nodes s) ->
     CAStorage._save self name content s = (Ok r1, s1) ->
     r1 = stored_name self name d /\
     (os_path.exists_ p s = (Ok true, s) -> s1 = s) /\
     (os_path.exists_ p s = (Ok false, s) -> writes s1 = S (writes s)) /\
     (forall name2 content2 d2 c2,
        CAStorage.digest self content2 s1 = (Ok (d2, c2), s1) ->
        stored_name self name2 d2 = stored_name self name d ->
        CAStorage._save self name2 content2 s1 = (Ok r1, s1)) /\
     (temporary_file_path content = None ->
      CAStorage._save self name content s1 = (Ok r1, s1))).
Proof.
  intros Hd Hp.
  pose proof (save_unfold self name content content' s d p Hd Hp) as Hsave.
  split.
  { intros Hex. rewrite Hsave. by rewrite (bind_eq _ _ _ _ _ Hex). }
  intros r1 s1 Hwf Hrun. rewrite Hsave in Hrun.
  destruct (exists_total p s) as [present Hex].
  rewrite (bind_eq _ _ _ _ _ Hex) in Hrun.
  assert (r1 = stored_name self name d /\ cwd s1 = cwd s /\
          os_path.exists_ p s1 = (Ok true, s1) /\
          (present = true -> s1 = s) /\
          (present = false -> writes s1 = S (writes s)))
    as (-> & Hcwd & Hex1 & Hsame & Hwrites).
  { destruct present.
    - injection Hrun as <- <-. by repeat split.
    - destruct (FileSystemStorage_save_spec _ _ _ _ _ _ _ Hwf Hp Hrun)
        as (-> & ? & ? & _ & ?).
      by repeat split. }
  assert (CAStorage.path self (stored_name self name d) s1 = (Ok p, s1))
    as Hp1.
  { apply (run_eq (CAStorage.path self (stored_name self name d) s1)).
    rewrite (path_cwd _ _ _ _ Hcwd). by rewrite Hp. }
  assert (forall name2 content2 d2 c2,
            CAStorage.digest self content2 s1 = (Ok (d2, c2), s1) ->
            stored_name self name2 d2 = stored_name self name d ->
            CAStorage._save self name2 content2 s1
            = (Ok (stored_name self name d), s1)) as Hagain.
  { intros name2 content2 d2 c2 Hd2 Hname.
    rewrite (save_unfold self name2 content2 c2 s1 d2 p Hd2)
      by (by rewrite Hname).
    rewrite (bind_eq _ _ _ _ _ Hex1). by rewrite Hname. }
  split; [done|].
  split; [intros Hex'; apply Hsame; congruence|].
  split; [intros Hex'; apply Hwrites; congruence|].
  split; [done|].
  intros Hmem. apply (Hagain name content d content'); [|done].
  pose proof (digest_in_memory self content s s1 Hmem) as Hfst.
  pose proof (digest_reads self content s1) as Hsnd.
  rewrite Hd in Hfst. simpl in Hfst.
  destruct (CAStorage.digest self content s1) as [r s2].
  simpl in *. by subst.
Qed.

Lemma save_idempotent_witness :
  writes (snd (CAStorage._save example_storage (lit "photo.png")
                 example_upload example_fs)) = 1%nat /\
  CAStorage._save example_storage (lit "photo.png") example_upload
    (snd (CAStorage._save example_storage (lit "photo.png")
            example_upload example_fs))
  = (Ok (lit "a9993e364706816aba3e25717850c26c9cd0d89d.png"),
     snd (CAStorage._save example_storage (lit "photo.png")
            example_upload example_fs)).
Proof.
  destruct (save_idempotent example_storage (lit "photo.png")
              example_upload example_upload example_fs
              (lit "a9993e364706816aba3e25717850c26c9cd0d89d")
              (lit "/data/a9/99/a9993e364706816aba3e25717850c26c9cd0d89d.png"))
    as [_ Htwice].
  - apply run_pair; [vm_compute; reflexivity | apply digest_reads].
  - apply run_pair; [vm_compute; reflexivity | apply path_reads].
  - destruct (Htwice (lit "a9993e364706816aba3e25717850c26c9cd0d89d.png")
                (snd (CAStorage._save example_storage (lit "photo.png")
                        example_upload example_fs)))
      as (_ & _ & Hwrites & _ & Hagain).
    + refine (bool_decide_unpack _ _). vm_compute. exact I.
    + apply run_eq. vm_compute. reflexivity.
    + split.
      * apply Hwrites.
        apply run_pair; [vm_compute; reflexivity | apply exists_reads].
      * apply Hagain. reflexivity.
Defined.

(** C1 (idempotent save) fails on the code for uploads spooled to disk.
    When the content has the method [temporary_file_path], [digest] hands
    the temporary file to [hash_filename], which opens it in text mode:
    as soon as the first read returns something, that is for every such
    file that is not empty and starts with valid text, [update] is given a
    [str] and raises a [TypeError].  So [save] raises, for every name and
    whatever is stored already, where the claim has it return the stored
    name; the machine is left as it was. *)
Theorem save_temporary_upload_raises (self : CAStorage.t) (name : str)
    (content : File) (tmp : str) (s : fs) (l : loc) (data : bytes)
    (c : ascii) (t : str) (reads : list str) (failure : option exn) :
  temporary_file_path content = Some tmp ->
  Fs.resolve s tmp = Ok l ->
  nodes s !! l = Some (Reg data) ->
  text_read s data DEFAULT_CHUNK_SIZE = ((c :: t) :: reads, failure) ->
  CAStorage.digest self content s = (Raise TypeError, s) /\
  CAStorage._save self name content s = (Raise TypeError, s).
Proof.
  intros Htmp Hres Hreg Hread.
  assert (CAStorage.digest self content s = (Raise TypeError, s)) as Hd.
  { unfold CAStorage.digest. rewrite Htmp.
    apply bind_raise.
    rewrite (hash_filename_text_mode tmp DEFAULT_CHUNK_SIZE s l data)
      by done.
    unfold utils.text_chunks. simpl (DEFAULT_CHUNK_SIZE =? 0).
    cbv iota. rewrite Hread. simpl.
    by destruct (utils.chunks_loop reads failure). }
  split; [done|].
  unfold CAStorage._save. by apply bind_raise.
Qed.

(** The file is stored already, and an upload with the same bytes held in
    memory is answered with the stored name; the spooled upload raises. *)
Lemma save_temporary_upload_raises_witness :
  os_path.exists_ (lit "/data/a9/99/a9993e364706816aba3e25717850c26c9cd0d89d")
    example_fs_spooled = (Ok true, example_fs_spooled) /\
  fst (CAStorage._save example_storage (lit "photo") example_upload
         example_fs_spooled)
  = Ok (lit "a9993e364706816aba3e25717850c26c9cd0d89d") /\
  CAStorage._save example_storage (lit "photo") example_spooled_upload
    example_fs_spooled = (Raise TypeError, example_fs_spooled).
Proof.
  split; [|split].
  - apply run_pair; [vm_compute; reflexivity | apply exists_reads].
  - vm_compute. reflexivity.
  - apply (save_temporary_upload_raises example_storage (lit "photo")
             example_spooled_upload (lit "/tmp/upload") example_fs_spooled
             [lit "tmp"; lit "upload"] (list_byte_of_string "abc")
             "a"%char (lit "bc") [] None).
    + reflexivity.
    + vm_compute. reflexivity.
    + vm_compute. reflexivity.
    + vm_compute. reflexivity.
Defined.

(** ** The loop budget is never exhausted *)

Section termination.
Implicit Types (p directory : str) (s : fs) (m : gmap loc node).

Lemma resolve_outcome s p : Fs.resolve s p <> OutOfFuel.
Proof.
  unfold Fs.resolve. destruct p as [|c p]; [done|].
  by destruct (walk_outcome (nodes s)
                 (if Py.startswith (c :: p) (lit "/") then [] else cwd s)
                 (Py.split (c :: p) "/")) as [[l ->] | [-> | ->]].
Qed.

Lemma stat_outcome p s : fst (Fs.stat p s) <> OutOfFuel.
Proof.
  unfold Fs.stat, reading. simpl.
  pose proof (resolve_outcome s p).
  destruct (Fs.resolve s p) as [l| |]; [|done|done].
  by destruct (nodes s !! l) as [[|c0]|].
Qed.

Lemma listdir_outcome p s : fst (Fs.listdir p s) <> OutOfFuel.
Proof.
  unfold Fs.listdir, reading. simpl.
  pose proof (resolve_outcome s p).
  destruct (Fs.resolve s p) as [l| |]; [|done|done].
  by destruct (nodes s !! l) as [[|c0]|].
Qed.

Lemma rmdir_outcome p s : fst (Fs.rmdir p s) <> OutOfFuel.
Proof.
  unfold Fs.rmdir.
  pose proof (resolve_outcome s p).
  destruct (Fs.resolve s p) as [l| |]; [|done|done].
  destruct (nodes s !! l) as [[|c0]|]; [|done|done].
  destruct l; [done|]. by destruct (Fs.entries _ _).
Qed.

Lemma keep_pruning_outcome (root : option str) (rs : option Fs.stat_result)
    directory s :
  fst (utils.keep_pruning root rs directory s) <> OutOfFuel.
Proof.
  unfold utils.keep_pruning. destruct (utils.truthy root); [|done].
  unfold bind. pose proof (stat_outcome directory s).
  destruct (Fs.stat directory s) as [[st| |] s1]; [|done|done].
  by destruct rs.
Qed.

(** A walk over empty components stays where it is. *)
Lemma walk_stays m (d l : loc) (comps : list str) :
  Forall (fun part => part = []) comps ->
  Fs.walk m d comps = Ok l -> l = d.
Proof.
  induction 1 as [|part comps -> _ IH]; simpl; [congruence|].
  destruct (m !! d) as [[|c0]|]; [|done|done]. exact IH.
Qed.

(** A path that names something below the top directory is not made of
    separators only. *)
Lemma resolve_below_top s p (x : str) (l : loc) :
  Fs.resolve s p = Ok (x :: l) ->
  p <> [] /\ ~ Forall (fun c => c = os_path.sep) p.
Proof.
  unfold Fs.resolve. destruct p as [|c p]; [done|]. intros Hwalk.
  split; [done|]. intros Hall.
  assert (Py.startswith (c :: p) (lit "/") = true) as Hs.
  { apply Forall_cons in Hall as [-> _]. apply startswith_spec. by eexists. }
  rewrite Hs in Hwalk.
  by apply walk_stays in Hwalk; [|by apply split_all_empty].
Qed.

Lemma dirname_shorter p :
  p <> [] -> ~ Forall (fun c => c = os_path.sep) p ->
  (length (os_path.dirname p) < length p)%nat.
Proof.
  intros Hne Hnot.
  destruct (decide (os_path.sep ∈ p)) as [Hin | Hnin].
  - apply list_elem_of_split_r in Hin as (pre & post & -> & Hpost).
    rewrite dirname_last_sep by done. rewrite !length_app. simpl.
    case_bool_decide as Hpre.
    + destruct post as [|y post]; [|rewrite length_app; simpl; lia].
      destruct Hnot. apply Forall_app. split; [done | by repeat constructor].
    + pose proof (rstrip_length pre os_path.sep). lia.
  - rewrite dirname_notin by done. destruct p; [done | simpl; lia].
Qed.

Lemma rmdir_shortens directory s s' :
  Fs.rmdir directory s = (Ok tt, s') ->
  (length (os_path.dirname directory) < length directory)%nat.
Proof.
  unfold Fs.rmdir. intros Hrun.
  destruct (Fs.resolve s directory) as [l| |] eqn:Hres; [|done|done].
  destruct (nodes s !! l) as [[|c0]|]; [|done|done].
  destruct l as [|x l]; [done|].
  destruct (resolve_below_top _ _ _ _ Hres). by apply dirname_shorter.
Qed.

(** The loop of [rm_file_and_empty_parents] ends within its budget. *)
Lemma prune_terminates (fuel : nat) (root : option str)
    (rs : option Fs.stat_result) directory s :
  (length directory < fuel)%nat ->
  fst (utils.prune fuel root rs directory s) <> OutOfFuel.
Proof.
  revert directory s. induction fuel as [|fuel IH]; intros directory s Hlen;
    [lia|].
  simpl. unfold bind at 1.
  pose proof (keep_pruning_outcome root rs directory s) as Hk.
  destruct (utils.keep_pruning root rs directory s) as [[[|]| |] s1];
    [| done | done | done].
  unfold bind at 1. pose proof (listdir_outcome directory s1) as Hl.
  destruct (Fs.listdir directory s1) as [[[|n names]| |] s2];
    [| done | done | done].
  unfold bind. pose proof (rmdir_outcome directory s2) as Hr.
  destruct (Fs.rmdir directory s2) as [[[]| |] s3] eqn:Hrm; [| done | done].
  apply IH. apply rmdir_shortens in Hrm. lia.
Qed.

Lemma dirname_length p : (length (os_path.dirname p) <= length p)%nat.
Proof.
  destruct (decide (os_path.sep ∈ p)) as [Hin | Hnin].
  - apply list_elem_of_split_r in Hin as (pre & post & -> & Hpost).
    rewrite dirname_last_sep by done. rewrite !length_app. simpl.
    pose proof (rstrip_length pre os_path.sep).
    case_bool_decide; rewrite ?length_app; simpl; lia.
  - rewrite dirname_notin by done. simpl. lia.
Qed.

Lemma unlink_then_prune_outcome (filename : str) (root : option str)
    (rs : option Fs.stat_result) s :
  fst ((Fs.unlink filename ;;
        utils.prune (S (length filename)) root rs
          (os_path.dirname filename)) s) <> OutOfFuel.
Proof.
  unfold bind.
  destruct (Fs.unlink filename s) as [[[]| |] s2] eqn:Hun; [| done |].
  - apply prune_terminates. pose proof (dirname_length filename). lia.
  - revert Hun. unfold Fs.unlink.
    pose proof (resolve_outcome s filename).
    destruct (Fs.resolve s filename) as [l| |]; [|done|done].
    by destruct (nodes s !! l) as [[|c0]|].
Qed.

(** [rm_file_and_empty_parents] returns or raises, on every input. *)
Theorem rm_file_and_empty_parents_total (filename : str) (root : option str)
    s :
  exists r s', utils.rm_file_and_empty_parents filename root s = (r, s') /\
               (r = Ok tt \/ exists e, r = Raise e).
Proof.
  assert (fst (utils.rm_file_and_empty_parents filename root s) <> OutOfFuel)
    as Hfin.
  { unfold utils.rm_file_and_empty_parents.
    destruct (utils.truthy root).
    - unfold bind at 1. unfold bind at 1.
      pose proof (stat_outcome (default [] root) s) as Hst.
      destruct (Fs.stat (default [] root) s) as [[st| |] s1]; [|done|done].
      apply unlink_then_prune_outcome.
    - unfold bind at 1. simpl. apply unlink_then_prune_outcome. }
  destruct (utils.rm_file_and_empty_parents filename root s) as [r s'].
  exists r, s'. split; [done|].
  destruct r as [[]|e|]; [by left | by right; eexists | done].
Qed.

End termination.

(** ** Construction and naming *)

(** The base URL of a storage always ends with a separator. *)
Theorem init_base_url_ends_with_separator (location base_url : str)
    (keep_extension : bool) (sharding : Z * Z) :
  Py.endswith
    (CAStorage.base_url
       (CAStorage.init location base_url keep_extension sharding))
    os_path.sep = true.
Proof.
  unfold CAStorage.init. simpl.
  destruct (Py.endswith base_url os_path.sep) eqn:Hends; [done|].
  unfold Py.endswith. apply bool_decide_eq_true_2, last_snoc.
Qed.

(** ** What removal never does *)

Section removal.
Implicit Types (F R : option loc) (s : fs) (l : loc) (p directory : str).

Lemma only_removes_refl F R s : only_removes F R s s.
Proof.
  split; [done|]. split; [by left|]. split; [done|]. by split.
Qed.

Lemma only_removes_trans F R s1 s2 s3 :
  only_removes F R s1 s2 -> only_removes F R s2 s3 -> only_removes F R s1 s3.
Proof.
  intros (Hsub1 & Hreg1 & Hroot1 & Hwf1 & Hcwd1 & Hw1)
         (Hsub2 & Hreg2 & Hroot2 & Hwf2 & Hcwd2 & Hw2).
  split; [|split; [|split; [|split; [|split]]]].
  - intros l n Hl. by apply Hsub1, Hsub2.
  - intros l c Hl. destruct (Hreg1 l c Hl) as [Hl2 | ?]; [|by right].
    by apply Hreg2.
  - intros l HR Hl. by apply Hroot2, Hroot1.
  - intros Hwf. by apply Hwf2, Hwf1.
  - congruence.
  - congruence.
Qed.

Lemma only_removes_weaken F R s s' :
  only_removes None R s s' -> only_removes F R s s'.
Proof.
  intros (Hsub & Hreg & Hrest). split; [done|]. split; [|done].
  intros l c Hl. by destruct (Hreg l c Hl); [left|].
Qed.

(** The removal of one node that has nothing below it. *)
Lemma only_removes_delete F R s l (n : node) (e : event) :
  nodes s !! l = Some n ->
  is_write e = false ->
  (forall c, n = Reg c -> F = Some l) ->
  (R = Some l -> n <> Dir) ->
  (nodes s !! [] = Some Dir -> l <> []) ->
  (wf (nodes s) -> forall x, nodes s !! (l ++ [x]) = None) ->
  only_removes F R s (changed s (delete l (nodes s)) e).
Proof.
  intros Hl He HF HR HR' Hleaf.
  split; [|split; [|split; [|split; [|split]]]]; simpl.
  - intros l' n' Hl'. by apply lookup_delete_Some in Hl' as [_ ?].
  - intros l' c Hl'. destruct (decide (l' = l)) as [-> | Hne].
    + right. apply (HF c). congruence.
    + left. by rewrite lookup_delete_ne.
  - intros l' HRl Hdir. destruct (decide (l' = l)) as [-> | Hne].
    + exfalso. apply (HR HRl). congruence.
    + by rewrite lookup_delete_ne.
  - intros Hwf. apply wf_delete_leaf; [done | | by apply Hleaf].
    apply HR', Hwf.
  - done.
  - unfold writes. simpl. by rewrite He.
Qed.
Lemma unlink_only_removes R p s :
  only_removes (named s p) R s (snd (Fs.unlink p s)).
Proof.
  unfold Fs.unlink, named.
  destruct (Fs.resolve s p) as [l| |]; [|apply only_removes_refl..].
  destruct (nodes s !! l) as [[|c]|] eqn:Hl; [apply only_removes_refl| |apply only_removes_refl].
  simpl. apply (only_removes_delete _ _ _ _ (Reg c)); try done.
  - intros Htop ->. congruence.
  - intros Hwf. by apply (wf_file_leaf _ _ c).
Qed.

(** What [rmdir] does when it returns. *)
Lemma rmdir_ok directory s s' :
  Fs.rmdir directory s = (Ok tt, s') ->
  exists l, Fs.resolve s directory = Ok l /\ l <> [] /\
    nodes s !! l = Some Dir /\ (forall x, nodes s !! (l ++ [x]) = None) /\
    s' = changed s (delete l (nodes s)) (RemovedDir l).
Proof.
  unfold Fs.rmdir. intros Hrun.
  destruct (Fs.resolve s directory) as [l| |]; [|done|done].
  destruct (nodes s !! l) as [[|c0]|] eqn:Hl; [|done|done].
  destruct l as [|x l]; [done|].
  destruct (Fs.entries (nodes s) (x :: l)) eqn:Hempty; [|done].
  injection Hrun as <-. exists (x :: l).
  by rewrite <- entries_nil.
Qed.

Lemma rmdir_failed directory s s' (r : result unit) :
  Fs.rmdir directory s = (r, s') -> r <> Ok tt -> s' = s.
Proof.
  unfold Fs.rmdir. intros Hrun Hr.
  destruct (Fs.resolve s directory) as [l| |]; [|congruence..].
  destruct (nodes s !! l) as [[|c0]|]; [|congruence..].
  destruct l as [|x l]; [congruence|].
  destruct (Fs.entries (nodes s) (x :: l)); [|congruence].
  injection Hrun as <- _. done.
Qed.

Lemma listdir_reads directory s : snd (Fs.listdir directory s) = s.
Proof. reflexivity. Qed.

(** The loop goes on from a directory only if it is not the root. *)
Lemma keep_pruning_ok (root : option str) (rs : option Fs.stat_result)
    directory s s' (go : bool) :
  utils.keep_pruning root rs directory s = (Ok go, s') ->
  s' = s /\
  (go = true -> utils.truthy root = true ->
   forall l, Fs.resolve s directory = Ok l -> Fs.st_ino <$> rs <> Some l).
Proof.
  unfold utils.keep_pruning. destruct (utils.truthy root).
  - unfold bind, Fs.stat, reading.
    destruct (Fs.resolve s directory) as [l| |] eqn:Hres; [|done|done].
    destruct rs as [rs|]; [|by destruct (nodes s !! l) as [[|c0]|]].
    unfold os_path.samestat.
    destruct (nodes s !! l) as [[|c0]|]; [| |done];
      simpl; intros Hrun; injection Hrun as <- <-; (split; [done|]);
      intros Hgo _ l' [= <-] [= Heq];
      by rewrite bool_decide_eq_true_2 in Hgo.
  - intros [= <- <-]. by split.
Qed.

Lemma keep_pruning_reads (root : option str) (rs : option Fs.stat_result)
    directory s :
  snd (utils.keep_pruning root rs directory s) = s.
Proof.
  unfold utils.keep_pruning. destruct (utils.truthy root); [|done].
  unfold bind, Fs.stat, reading. 
  destruct (Fs.resolve s directory) as [l| |]; [|done|done].
  destruct (nodes s !! l) as [[|c0]|]; [| |done]; by destruct rs.
Qed.

(** The loop removes directories only, and never the root. *)
Lemma prune_only_removes (fuel : nat) (root : option str)
    (rs : option Fs.stat_result) directory s :
  only_removes None
    (if utils.truthy root then Fs.st_ino <$> rs else None)
    s (snd (utils.prune fuel root rs directory s)).
Proof.
  revert directory s. induction fuel as [|fuel IH]; intros directory s;
    [apply only_removes_refl|].
  simpl. unfold bind at 1.
  pose proof (keep_pruning_reads root rs directory s) as Hs1.
  destruct (utils.keep_pruning root rs directory s) as [[go| |] s1] eqn:Hk;
    simpl in Hs1; subst s1; [|apply only_removes_refl..].
  destruct go; [|apply only_removes_refl].
  apply keep_pruning_ok in Hk as [_ Hnotroot]. specialize (Hnotroot eq_refl).
  unfold bind at 1. pose proof (listdir_reads directory s) as Hs2.
  destruct (Fs.listdir directory s) as [[[|n names]| |] s2];
    simpl in Hs2; subst s2; [|apply only_removes_refl..].
  unfold bind.
  destruct (Fs.rmdir directory s) as [[[]| |] s3] eqn:Hrm.
  - apply rmdir_ok in Hrm as (l & Hres & Hne & Hl & Hleaf & ->).
    eapply only_removes_trans; [|apply IH].
    apply (only_removes_delete _ _ _ _ Dir); try done.
    destruct (utils.truthy root); [|done].
    intros HR. by destruct (Hnotroot eq_refl l Hres).
  - apply rmdir_failed in Hrm as ->; [apply only_removes_refl | done].
  - apply rmdir_failed in Hrm as ->; [apply only_removes_refl | done].
Qed.

Lemma unlink_then_prune_only_removes (filename : str) (root : option str)
    (rs : option Fs.stat_result) s :
  only_removes (named s filename)
    (if utils.truthy root then Fs.st_ino <$> rs else None)
    s (snd ((Fs.unlink filename ;;
             utils.prune (S (length filename)) root rs
               (os_path.dirname filename)) s)).
Proof.
  unfold bind.
  pose proof (unlink_only_removes
                (if utils.truthy root then Fs.st_ino <$> rs else None)
                filename s) as Hun.
  destruct (Fs.unlink filename s) as [[[]| |] s1]; [|done|done].
  eapply only_removes_trans; [exact Hun|].
  apply only_removes_weaken, prune_only_removes.
Qed.

Lemma stat_named p s s' (st : Fs.stat_result) :
  Fs.stat p s = (Ok st, s') -> s' = s /\ named s p = Some (Fs.st_ino st).
Proof.
  unfold Fs.stat, reading, named. intros Hst.
  destruct (Fs.resolve s p) as [l| |]; [|done|done].
  by destruct (nodes s !! l) as [[|c0]|]; [| |done]; injection Hst as <- <-.
Qed.

End removal.

(** Whatever the file name and the root, and whether it returns or
    raises, [rm_file_and_empty_parents] only removes: no node is created
    or altered and nothing is written; no regular file other than the one
    named is removed; the directory named by the root stays; and a
    well-formed tree stays well formed, so that no directory is removed
    with something in it. *)
Theorem rm_file_and_empty_parents_only_removes (filename : str)
    (root : option str) (s : fs) :
  only_removes (named s filename)
    (if utils.truthy root then named s (default [] root) else None)
    s (snd (utils.rm_file_and_empty_parents filename root s)).
Proof.
  unfold utils.rm_file_and_empty_parents.
  pose proof (unlink_then_prune_only_removes filename root) as Hrest.
  destruct (utils.truthy root).
  - unfold bind at 1. unfold bind at 1.
    assert (snd (Fs.stat (default [] root) s) = s) as Hreads by done.
    destruct (Fs.stat (default [] root) s) as [[st| |] s1] eqn:Hst;
      simpl in Hreads; subst s1; [|apply only_removes_refl..].
    apply stat_named in Hst as [_ ->]. apply (Hrest (Some st)).
  - unfold bind at 1. simpl. apply (Hrest None).
Qed.

(** ** Removal of what is not a file *)

Section refusals.
Implicit Types (s : fs) (p : str) (e : exn).

Lemma resolve_raises s p e :
  Fs.resolve s p = Raise e -> isinstance e OSError = true.
Proof.
  unfold Fs.resolve. destruct p as [|c p]; [by intros [= <-]|].
  destruct (walk_outcome (nodes s)
              (if Py.startswith (c :: p) (lit "/") then [] else cwd s)
              (Py.split (c :: p) "/")) as [[l ->] | [-> | ->]];
    [done | by intros [= <-] | by intros [= <-]].
Qed.

Lemma stat_raises p s s' e :
  Fs.stat p s = (Raise e, s') -> s' = s /\ isinstance e OSError = true.
Proof.
  unfold Fs.stat, reading.
  destruct (Fs.resolve s p) as [l|e'|] eqn:Hres; [| |done].
  - destruct (nodes s !! l) as [[|c0]|]; [done | done |].
    by intros [= <- <-].
  - intros [= <- <-]. split; [done|]. by apply (resolve_raises s p).
Qed.

(** [unlink] refuses what is not a regular file, and changes nothing. *)
Lemma unlink_refuses p s :
  (forall c, node_at s p <> Some (Reg c)) ->
  exists e, Fs.unlink p s = (Raise e, s) /\ isinstance e OSError = true.
Proof.
  unfold node_at, named, Fs.unlink. intros Hnot.
  pose proof (resolve_outcome s p) as Hfuel.
  destruct (Fs.resolve s p) as [l|e|] eqn:Hres; [| |done].
  - destruct (nodes s !! l) as [[|c0]|]; [by eexists | | by eexists].
    by destruct (Hnot c0).
  - exists e. split; [done|]. by apply (resolve_raises s p).
Qed.

End refusals.

(** When the file name does not name a regular file, the call raises an
    [OSError] and leaves the machine as it was. *)
Theorem rm_file_and_empty_parents_refuses (filename : str)
    (root : option str) (s : fs) :
  (forall c, node_at s filename <> Some (Reg c)) ->
  exists e, utils.rm_file_and_empty_parents filename root s = (Raise e, s) /\
            isinstance e OSError = true.
Proof.
  intros Hnot. destruct (unlink_refuses filename s Hnot) as (e & Hun & He).
  unfold utils.rm_file_and_empty_parents.
  destruct (utils.truthy root).
  - unfold bind at 1. unfold bind at 1.
    pose proof (stat_outcome (default [] root) s) as Hfuel.
    destruct (Fs.stat (default [] root) s) as [[st|e'|] s1] eqn:Hst;
      [| |done].
    + apply stat_named in Hst as [-> _]. unfold ret.
      exists e. split; [|done]. by apply bind_raise.
    + apply stat_raises in Hst as [-> He']. by exists e'.
  - unfold bind at 1. simpl. exists e. split; [|done]. by apply bind_raise.
Qed.

Lemma rm_file_and_empty_parents_refuses_witness :
  exists e,
    utils.rm_file_and_empty_parents (lit "/data/1f/09") (Some (lit "/data"))
      example_fs = (Raise e, example_fs) /\
    isinstance e OSError = true.
Proof.
  apply (rm_file_and_empty_parents_refuses (lit "/data/1f/09")
           (Some (lit "/data")) example_fs).
  intros c. vm_compute. discriminate.
Defined.

(** ** Names joined onto the root *)

Section joining.
Implicit Types (p b base : str) (k : nat) (cs shards : list str) (s : fs).

Lemma abspath_absolute s p :
  os_path.abspath s p = os_path.normpath (absolute s p).
Proof. unfold os_path.abspath, absolute. by destruct (os_path.isabs p). Qed.

Lemma plain_head b :
  plain b -> exists c b', b = c :: b' /\ c <> os_path.sep.
Proof.
  intros (Hne & _ & _ & Hsep). destruct b as [|c b']; [done|].
  exists c, b'. split; [done|]. intros ->. apply Hsep. left.
Qed.

Lemma plain_relative b : plain b -> Py.startswith b [os_path.sep] = false.
Proof.
  intros Hb. destruct (plain_head b Hb) as (c & b' & -> & Hc).
  simpl. by rewrite decide_False.
Qed.

Lemma join_step_plain p b :
  p <> [] -> plain b ->
  os_path.join_step p b
  = if Py.endswith p os_path.sep then p ++ b else p ++ os_path.sep :: b.
Proof.
  intros Hp Hb. unfold os_path.join_step.
  rewrite plain_relative by done.
  by rewrite bool_decide_eq_false_2 by done.
Qed.

Lemma isabs_app p b : os_path.isabs p = true -> os_path.isabs (p ++ b) = true.
Proof.
  unfold os_path.isabs. rewrite !startswith_spec.
  intros [post ->]. exists (post ++ b). by rewrite <- app_assoc.
Qed.

Lemma isabs_join_step p b :
  os_path.isabs p = true -> plain b ->
  os_path.isabs (os_path.join_step p b) = true.
Proof.
  intros Hp Hb. rewrite join_step_plain; [|by destruct p|done].
  destruct (Py.endswith p os_path.sep); by apply isabs_app.
Qed.

Lemma endswith_app p b :
  b <> [] -> Py.endswith (p ++ b) os_path.sep = Py.endswith b os_path.sep.
Proof.
  intros Hb. unfold Py.endswith. apply bool_decide_ext.
  by rewrite last_app_cons || (destruct b using rev_ind; [done|];
    by rewrite app_assoc, !last_snoc).
Qed.

Lemma join_step_relative p b :
  p <> [] -> Py.startswith b [os_path.sep] = false ->
  os_path.join_step p b
  = if Py.endswith p os_path.sep then p ++ b else p ++ os_path.sep :: b.
Proof.
  intros Hp Hb. unfold os_path.join_step.
  by rewrite Hb, bool_decide_eq_false_2 by done.
Qed.

(** Joining a name onto a path and making the result absolute is joining
    the name onto the absolute path. *)
Lemma absolute_join_step s p b :
  plain b ->
  absolute s (os_path.join_step p b) = os_path.join_step (absolute s p) b.
Proof.
  intros Hb. pose proof (plain_relative b Hb) as Hrel.
  destruct (getcwd_abs s) as [r Hcwd].
  assert (os_path.getcwd s <> []) as Hne by (by rewrite Hcwd).
  destruct (decide (p = [])) as [-> | Hp].
  - unfold absolute, os_path.isabs, os_path.join. simpl fold_left.
    replace (os_path.join_step [] b) with b
      by (unfold os_path.join_step; by rewrite Hrel).
    rewrite Hrel. simpl Py.startswith. cbv iota.
    rewrite (join_step_relative _ b) by done.
    rewrite (join_step_relative _ []) by done.
    rewrite app_nil_r.
    destruct (Py.endswith (os_path.getcwd s) os_path.sep) eqn:Hends.
    + rewrite join_step_relative by done. by rewrite Hends.
    + rewrite join_step_relative by (done || by destruct (os_path.getcwd s)).
      rewrite endswith_app by done. simpl.
      by rewrite <- app_assoc.
  - rewrite join_step_relative by done. unfold absolute.
    destruct (os_path.isabs p) eqn:Habs.
    + rewrite join_step_relative by done.
      by destruct (Py.endswith p os_path.sep); rewrite isabs_app.
    + unfold os_path.isabs in *. unfold os_path.join. simpl fold_left.
      assert (forall q, Py.startswith (p ++ q) [os_path.sep] = false) as Hq.
      { intros q. destruct p as [|c p]; [done|].
        simpl in Habs |- *.
        destruct (decide (c = os_path.sep)); [by destruct p | done]. }
      set (top := if Py.endswith (os_path.getcwd s) os_path.sep
                  then os_path.getcwd s else os_path.getcwd s ++ [os_path.sep]).
      assert (forall q, Py.startswith q [os_path.sep] = false ->
                os_path.join_step (os_path.getcwd s) q = top ++ q) as Htop.
      { intros q Hrelq. rewrite join_step_relative by done. subst top.
        destruct (Py.endswith _ _); [done | by rewrite <- app_assoc]. }
      rewrite (Htop p) by done.
      assert (top ++ p <> []) as Hne' by (by destruct top, p).
      rewrite (join_step_relative (top ++ p) b) by done.
      rewrite endswith_app by done.
      destruct (Py.endswith p os_path.sep);
        rewrite Hq, Htop by done; by rewrite app_assoc.
Qed.

Lemma absolute_join s base shards :
  Forall plain shards ->
  absolute s (os_path.join base shards)
  = os_path.join (absolute s base) shards.
Proof.
  unfold os_path.join. intros Hshards. revert base.
  induction Hshards as [|b shards Hb _ IH]; intros base; simpl; [done|].
  by rewrite IH, absolute_join_step.
Qed.

Lemma absolute_isabs s p : os_path.isabs (absolute s p) = true.
Proof.
  unfold absolute. destruct (os_path.isabs p) eqn:Habs; [done|].
  destruct (getcwd_abs s) as [r Hr].
  unfold os_path.join, os_path.join_step, os_path.isabs in *. simpl.
  rewrite Habs, Hr. simpl.
  destruct (Py.endswith _ _); apply startswith_spec; by eexists.
Qed.

Lemma startswith_nil p : Py.startswith p [] = true.
Proof. by destruct p. Qed.

(** The components [normpath] keeps of a path. *)
Lemma normpath_abs p :
  os_path.isabs p = true ->
  os_path.normpath p
  = render (os_path.initial_slashes p)
      (fold_left (os_path.normpath_step (os_path.initial_slashes p))
         (Py.split p os_path.sep) []).
Proof.
  intros Habs. pose proof (initial_slashes_abs p Habs) as Hk.
  unfold os_path.normpath, render. destruct p as [|x p]; [done|].
  cbv zeta. by destruct Hk as [-> | ->].
Qed.

Lemma initial_slashes_join_step p b :
  os_path.isabs p = true -> plain b ->
  os_path.initial_slashes (os_path.join_step p b) = os_path.initial_slashes p.
Proof.
  intros Habs Hb. destruct (plain_head b Hb) as (c & b' & -> & Hc).
  rewrite join_step_plain; [|by destruct p|done].
  unfold os_path.isabs in Habs.
  destruct p as [|x1 p]; [done|]. simpl in Habs.
  destruct (decide (x1 = os_path.sep)) as [-> | ?]; [clear Habs|done].
  unfold os_path.initial_slashes, Py.endswith.
  destruct p as [|x2 p].
  { simpl. by rewrite (decide_False (P := c = os_path.sep)). }
  destruct p as [|x3 p].
  { simpl last. destruct (decide (x2 = os_path.sep)) as [-> | Hx2].
    - rewrite bool_decide_eq_true_2 by done. simpl.
      by rewrite (decide_False (P := c = os_path.sep)).
    - rewrite bool_decide_eq_false_2 by congruence. simpl.
      by rewrite (decide_False (P := x2 = os_path.sep)). }
  destruct (bool_decide _); simpl;
    destruct (decide (x2 = os_path.sep)); try done;
    destruct (decide (x3 = os_path.sep)); try done;
    by rewrite !startswith_nil.
Qed.

Lemma comps_join_step k p b :
  p <> [] -> plain b ->
  fold_left (os_path.normpath_step k)
            (Py.split (os_path.join_step p b) os_path.sep) []
  = fold_left (os_path.normpath_step k) (Py.split p os_path.sep) [] ++ [b].
Proof.
  intros Hp Hb. rewrite join_step_plain by done.
  assert (forall acc, os_path.normpath_step k acc b = acc ++ [b]) as Hstep.
  { intros acc. apply (normpath_fold_names k [b] acc). by constructor. }
  pose proof (plain_notin b Hb) as Hsep.
  destruct (Py.endswith p os_path.sep) eqn:Hends.
  - unfold Py.endswith in Hends. apply bool_decide_eq_true_1 in Hends.
    apply last_Some in Hends as [p' ->].
    rewrite <- app_assoc. simpl.
    rewrite split_last by done.
    rewrite (split_last p' []) by apply not_elem_of_nil.
    rewrite !fold_left_app. simpl. rewrite Hstep. f_equal.
  - rewrite split_last by done. rewrite fold_left_app. simpl. apply Hstep.
Qed.

(** Joining names onto an absolute path adds them to its normal form. *)
Lemma normpath_join_plain p shards :
  os_path.isabs p = true -> Forall plain shards ->
  os_path.isabs (os_path.join p shards) = true /\
  os_path.initial_slashes (os_path.join p shards) = os_path.initial_slashes p /\
  fold_left (os_path.normpath_step (os_path.initial_slashes p))
            (Py.split (os_path.join p shards) os_path.sep) []
  = fold_left (os_path.normpath_step (os_path.initial_slashes p))
              (Py.split p os_path.sep) [] ++ shards.
Proof.
  unfold os_path.join. intros Habs Hshards. revert p Habs.
  induction Hshards as [|b shards Hb _ IH]; intros p Habs; simpl.
  - by rewrite app_nil_r.
  - destruct (IH (os_path.join_step p b) (isabs_join_step p b Habs Hb))
      as (Habs' & Hk & Hcs).
    rewrite initial_slashes_join_step in Hk, Hcs by done.
    split; [done|]. split; [done|].
    rewrite Hcs, comps_join_step; [by rewrite <- app_assoc | by destruct p | done].
Qed.

End joining.

Section stored_paths.
Implicit Types (self : CAStorage.t) (name : str) (s : fs) (k : nat)
  (cs shards : list str).

Lemma join_app cs shards :
  cs <> [] -> shards <> [] ->
  Py.join os_path.sep (cs ++ shards)
  = Py.join os_path.sep cs ++ os_path.sep :: Py.join os_path.sep shards.
Proof.
  intros Hcs Hshards. induction cs as [|c cs IH]; [done|].
  destruct cs as [|c' cs].
  - simpl. by destruct shards.
  - change (Py.join os_path.sep ((c :: c' :: cs) ++ shards))
      with (c ++ os_path.sep :: Py.join os_path.sep ((c' :: cs) ++ shards)).
    rewrite IH by done.
    change (Py.join os_path.sep (c :: c' :: cs))
      with (c ++ os_path.sep :: Py.join os_path.sep (c' :: cs)).
    by rewrite <- app_assoc.
Qed.

(** A normal form with more names lies inside the shorter one. *)
Lemma located_inside_render k cs shards :
  k = 1%nat \/ k = 2%nat -> shards <> [] ->
  located_inside (render k cs) (render k (cs ++ shards)).
Proof.
  intros Hk Hshards. destruct cs as [|c cs].
  - right. right. by destruct Hk as [-> | ->].
  - left. apply startswith_spec. exists (Py.join os_path.sep shards).
    unfold render. rewrite join_app by done.
    by rewrite <- !app_assoc.
Qed.

Lemma shard_nonempty self name : CAStorage.shard self name <> [].
Proof.
  unfold CAStorage.shard, utils.shard. intros Hnil.
  by apply app_eq_nil in Hnil as [_ ?].
Qed.

Lemma shard_name_last self name :
  last (CAStorage.shard self name) = Some name.
Proof. unfold CAStorage.shard, utils.shard. apply last_snoc. Qed.

(** The path of a name whose shard segments are names: the normal form
    of the root, followed by the segments. *)
Lemma path_plain self name s :
  Forall plain (CAStorage.shard self name) ->
  exists k cs, (k = 1%nat \/ k = 2%nat) /\ Forall plain cs /\
    os_path.abspath s (CAStorage.location self) = render k cs /\
    CAStorage.path self name s
    = (Ok (render k (cs ++ CAStorage.shard self name)), s).
Proof.
  intros Hshards.
  set (root := absolute s (CAStorage.location self)).
  pose proof (absolute_isabs s (CAStorage.location self)) as Habs.
  fold root in Habs.
  destruct (normpath_join_plain root _ Habs Hshards) as (Habs' & Hk' & Hcs').
  exists (os_path.initial_slashes root),
    (fold_left (os_path.normpath_step (os_path.initial_slashes root))
       (Py.split root os_path.sep) []).
  pose proof (initial_slashes_abs root Habs) as Hk.
  assert (Forall plain
            (fold_left (os_path.normpath_step (os_path.initial_slashes root))
               (Py.split root os_path.sep) [])) as Hcs.
  { apply normpath_fold_plain; [lia | apply split_pieces_notin | constructor]. }
  assert (os_path.abspath s (CAStorage.location self)
          = render (os_path.initial_slashes root)
              (fold_left (os_path.normpath_step (os_path.initial_slashes root))
                 (Py.split root os_path.sep) [])) as Hroot.
  { rewrite abspath_absolute. by apply normpath_abs. }
  assert (os_path.abspath s
            (os_path.join (CAStorage.location self) (CAStorage.shard self name))
          = render (os_path.initial_slashes root)
              (fold_left (os_path.normpath_step (os_path.initial_slashes root))
                 (Py.split root os_path.sep) []
               ++ CAStorage.shard self name)) as Hfinal.
  { rewrite abspath_absolute, absolute_join by done. fold root.
    rewrite normpath_abs by done. by rewrite Hk', Hcs'. }
  split; [done|]. split; [done|]. split; [done|].
  unfold CAStorage.path, reading.
  rewrite safe_join_inside.
  - unfold django.smart_str. by rewrite normpath_abspath, Hfinal.
  - rewrite Hroot, Hfinal.
    apply located_inside_render; [done | apply shard_nonempty].
Qed.

End stored_paths.

(** [path] accepts every name whose shard segments are names: the path
    it returns is the normal form of the root followed by the shard
    segments, so its last component is the name itself, and it is a
    normalized path. *)
Theorem path_accepts_names (self : CAStorage.t) (name : str) (s : fs) :
  Forall plain (CAStorage.shard self name) ->
  exists p, CAStorage.path self name s = (Ok p, s) /\
    CAStorage.components p
    = CAStorage.components (os_path.abspath s (CAStorage.location self))
      ++ CAStorage.shard self name /\
    last (CAStorage.components p) = Some name /\
    os_path.normpath p = p.
Proof.
  intros Hshards.
  destruct (path_plain self name s Hshards) as (k & cs & Hk & Hcs & Hroot & Hp).
  assert (Forall plain (cs ++ CAStorage.shard self name)) as Hall
    by (by apply Forall_app).
  eexists. split; [exact Hp|].
  rewrite Hroot, !components_render by done.
  split; [done|]. split.
  - rewrite last_app, shard_name_last. done.
  - by apply normpath_render.
Qed.

Lemma path_accepts_names_witness :
  exists p, CAStorage.path example_storage (lit "1f09d3") example_fs
            = (Ok p, example_fs) /\
    last (CAStorage.components p) = Some (lit "1f09d3").
Proof.
  destruct (path_accepts_names example_storage (lit "1f09d3") example_fs)
    as (p & Hp & _ & Hlast & _).
  - refine (bool_decide_unpack _ _). vm_compute. exact I.
  - exists p. by split.
Defined.

(** No two names share a path: two names whose shard segments are names
    have the same path only if they are the same name. *)
Theorem path_injective (self : CAStorage.t) (name1 name2 : str) (s : fs) :
  Forall plain (CAStorage.shard self name1) ->
  Forall plain (CAStorage.shard self name2) ->
  fst (CAStorage.path self name1 s) = fst (CAStorage.path self name2 s) <->
  name1 = name2.
Proof.
  intros H1 H2. split; [|by intros ->].
  destruct (path_plain self name1 s H1) as (k1 & cs1 & Hk1 & Hcs1 & Hr1 & ->).
  destruct (path_plain self name2 s H2) as (k2 & cs2 & Hk2 & Hcs2 & Hr2 & ->).
  simpl. intros [= Heq].
  apply (f_equal CAStorage.components) in Heq.
  rewrite !components_render in Heq by (by apply Forall_app).
  apply (f_equal last) in Heq.
  rewrite !last_app, !shard_name_last in Heq. by injection Heq.
Qed.

Lemma path_injective_witness :
  fst (CAStorage.path example_storage (lit "1f09d3") example_fs)
  = fst (CAStorage.path example_storage (lit "1f09d4") example_fs) <->
  lit "1f09d3" = lit "1f09d4".
Proof.
  apply (path_injective example_storage (lit "1f09d3") (lit "1f09d4")
           example_fs);
    refine (bool_decide_unpack _ _); vm_compute; exact I.
Defined.

(** ** Stored names *)

Section stored_names.
Implicit Types (self : CAStorage.t) (name d : str) (s : fs) (w depth : Z).

Lemma splitext_scan_some (p : str) (dot : Z) (indices : list Z) (r : str * str) :
  os_path.splitext_scan p dot indices = Some r ->
  r = (Py.slice_to p dot, Py.slice_from p dot).
Proof.
  induction indices as [|i indices IH]; simpl; [done|].
  case_bool_decide; [congruence | exact IH].
Qed.

(** The extension [splitext] splits off holds no separator. *)
Lemma splitext_extension_notin name :
  os_path.sep ∉ snd (os_path.splitext name).
Proof.
  destruct (last_component_split name) as (D & Hname & Hsep & Hidx).
  unfold os_path.splitext. cbv zeta.
  destruct (Z.ltb_spec (Py.rfind name os_path.sep)
              (Py.rfind name os_path.extsep)) as [Hlt | Hge];
    [|simpl; rewrite slice_to_0; apply not_elem_of_nil].
  destruct (os_path.splitext_scan _ _ _) as [r|] eqn:Hscan;
    [|simpl; rewrite slice_to_0; apply not_elem_of_nil].
  apply splitext_scan_some in Hscan as ->. simpl.
  rewrite slice_from_nonneg by lia.
  assert (length D <= Z.to_nat (Py.rfind name os_path.extsep))%nat as Hn
    by lia.
  revert Hn. generalize (Z.to_nat (Py.rfind name os_path.extsep)).
  intros n Hn. rewrite Hname, drop_app_ge by done.
  intros Hin. apply Hsep. eapply elem_of_sublist; [exact Hin|].
  apply sublist_drop.
Qed.

Lemma hexdigit_plain (c : ascii) :
  c ∈ lit "0123456789abcdef" -> c <> os_path.sep /\ c <> os_path.extsep.
Proof.
  intros Hc. split; intros ->; revert Hc;
    refine (bool_decide_unpack _ _); vm_compute; exact I.
Qed.

(** A segment cut out of the digits of a digest is a name. *)
Lemma segment_plain (seg : str) :
  seg <> [] -> Forall (fun c => c ∈ lit "0123456789abcdef") seg -> plain seg.
Proof.
  intros Hne Hall.
  rewrite Forall_forall in Hall.
  assert (os_path.sep ∉ seg) as Hsep.
  { intros Hin. by apply Hall, hexdigit_plain in Hin as [? _]. }
  assert (os_path.extsep ∉ seg) as Hdot.
  { intros Hin. by apply Hall, hexdigit_plain in Hin as [_ ?]. }
  split; [done|]. split; [|split; [|done]].
  - intros ->. apply Hdot. by left.
  - intros ->. apply Hdot. by left.
Qed.

(** The shard segments of a stored name, a digest of hexadecimal digits
    followed by an extension, are names, when the directory segments are
    cut out of the digest. *)
Lemma shard_stored_plain d (ext : str) w depth :
  Forall (fun c => c ∈ lit "0123456789abcdef") d ->
  os_path.sep ∉ ext ->
  0 < w -> 0 <= depth -> w * depth <= Z.of_nat (length d) -> d <> [] ->
  Forall plain (utils.shard (d ++ ext) w depth false).
Proof.
  intros Hd Hext Hw Hdepth Hlen Hne. unfold utils.shard, Py.range.
  apply Forall_app. split.
  - apply Forall_forall. intros seg Hseg.
    apply list_elem_of_fmap in Hseg as (i & -> & Hi).
    apply elem_of_seqZ in Hi.
    rewrite slice_nonneg by nia.
    rewrite drop_app_le by nia.
    rewrite take_app_le by (rewrite length_drop; nia).
    apply segment_plain.
    + intros Hnil. apply (f_equal length) in Hnil.
      rewrite length_take, length_drop in Hnil. simpl in Hnil. nia.
    + by apply Forall_take, Forall_drop.
  - repeat constructor.
    + by destruct d.
    + destruct d as [|c d]; [done|]. intros [= -> _].
      apply Forall_cons in Hd as [Hc _].
      by apply hexdigit_plain in Hc as [_ ?].
    + destruct d as [|c d]; [done|]. intros [= -> _].
      apply Forall_cons in Hd as [Hc _].
      by apply hexdigit_plain in Hc as [_ ?].
    + rewrite not_elem_of_app. split; [|done].
      intros Hin. rewrite Forall_forall in Hd.
      by apply Hd, hexdigit_plain in Hin as [? _].
Qed.

(** The digest of an upload held in memory. *)
Lemma digest_memory self (content : File) s :
  temporary_file_path content = None ->
  CAStorage.digest self content s
  = (Ok (SHA1.hexdigest (concat (file_chunks content)), seek0 content), s).
Proof.
  intros Hmem. unfold CAStorage.digest. rewrite Hmem.
  unfold chunks, bind, lift.
  rewrite (hash_chunks_bytes (digestmod := sha1)). reflexivity.
Qed.

(** The shard segments of the name an upload held in memory is stored
    under are names. *)
Lemma stored_name_plain self name (msg : bytes) :
  0 < CAStorage.shard_width self ->
  0 <= CAStorage.shard_depth self ->
  CAStorage.shard_width self * CAStorage.shard_depth self <= 40 ->
  Forall plain
    (CAStorage.shard self (stored_name self name (SHA1.hexdigest msg))).
Proof.
  intros Hw Hdepth Hlen.
  destruct (sha1_hexdigest_shape msg) as [Hlen40 Hhex].
  revert Hlen40 Hhex. generalize (SHA1.hexdigest msg). intros d Hlen40 Hhex.
  assert (d <> []) as Hne by (intros ->; simpl in Hlen40; lia).
  unfold CAStorage.shard, stored_name.
  destruct (CAStorage.keep_extension self).
  - apply shard_stored_plain;
      [exact Hhex | apply splitext_extension_notin | exact Hw | exact Hdepth
       | lia | exact Hne].
  - rewrite <- (app_nil_r d).
    apply shard_stored_plain;
      [exact Hhex | apply not_elem_of_nil | exact Hw | exact Hdepth
       | lia | exact Hne].
Qed.

End stored_names.

(** The digest of an upload held in memory is the SHA-1 digest of its
    bytes put end to end, 40 lowercase hexadecimal digits, whatever the
    chunks, the storage and the machine; the upload is handed back
    rewound, and the machine is left as it was. *)
Theorem digest_of_upload_in_memory (self : CAStorage.t) (content : File)
    (s : fs) :
  temporary_file_path content = None ->
  CAStorage.digest self content s
  = (Ok (SHA1.hexdigest (concat (file_chunks content)), seek0 content), s) /\
  length (SHA1.hexdigest (concat (file_chunks content))) = 40%nat /\
  Forall (fun c => c ∈ lit "0123456789abcdef")
         (SHA1.hexdigest (concat (file_chunks content))).
Proof.
  intros Hmem. split; [exact (digest_memory self content s Hmem)|].
  apply sha1_hexdigest_shape.
Qed.

Lemma digest_of_upload_in_memory_witness :
  CAStorage.digest example_storage example_upload example_fs
  = (Ok (SHA1.hexdigest (list_byte_of_string "abc"), seek0 example_upload),
     example_fs).
Proof.
  exact (proj1 (digest_of_upload_in_memory example_storage example_upload
                  example_fs eq_refl)).
Defined.

(** The name an upload held in memory is stored under is always accepted
    by [path], when the directory segments are cut out of the digest
    (a positive width, and [width * depth] at most 40): the path is the
    root followed by the shard segments, its last component is the stored
    name; and when something is there already, [_save] returns the stored
    name and leaves the machine as it was. *)
Theorem save_in_memory_accepted (self : CAStorage.t) (name : str)
    (content : File) (s : fs) :
  temporary_file_path content = None ->
  0 < CAStorage.shard_width self ->
  0 <= CAStorage.shard_depth self ->
  CAStorage.shard_width self * CAStorage.shard_depth self <= 40 ->
  let stored :=
    stored_name self name (SHA1.hexdigest (concat (file_chunks content))) in
  exists p,
    CAStorage.path self stored s = (Ok p, s) /\
    CAStorage.components p
    = CAStorage.components (os_path.abspath s (CAStorage.location self))
      ++ CAStorage.shard self stored /\
    last (CAStorage.components p) = Some stored /\
    (os_path.exists_ p s = (Ok true, s) ->
     CAStorage._save self name content s = (Ok stored, s)).
Proof.
  intros Hmem Hw Hdepth Hlen stored.
  pose proof (stored_name_plain self name (concat (file_chunks content))
                Hw Hdepth Hlen) as Hplain.
  pose proof (digest_memory self content s Hmem) as Hd.
  fold stored in Hplain.
  destruct (path_plain self stored s Hplain)
    as (k & cs & Hk & Hcs & Hroot & Hp).
  exists (render k (cs ++ CAStorage.shard self stored)).
  split; [exact Hp|].
  rewrite Hroot, !components_render by (assumption || by apply Forall_app).
  split; [reflexivity|].
  split; [by rewrite last_app, shard_name_last|].
  intros Hex.
  rewrite (save_unfold self name content (seek0 content) s _ _ Hd Hp).
  rewrite (bind_eq _ _ _ _ _ Hex). reflexivity.
Qed.

Lemma save_in_memory_accepted_witness :
  exists p,
    CAStorage.path example_storage
      (stored_name example_storage (lit "photo.png")
         (SHA1.hexdigest (concat (file_chunks example_upload))))
      example_fs = (Ok p, example_fs) /\
    last (CAStorage.components p)
    = Some (stored_name example_storage (lit "photo.png")
              (SHA1.hexdigest (concat (file_chunks example_upload)))).
Proof.
  destruct (save_in_memory_accepted example_storage (lit "photo.png")
              example_upload example_fs)
    as (p & Hp & _ & Hlast & _);
    [reflexivity | reflexivity | discriminate | discriminate |].
  exists p. split; [exact Hp | exact Hlast].
Defined.

(** ** Text where bytes are expected *)

Section text_chunks.
Context {digestmod : HashAlgorithm}.

(** The loop of [hash_chunks] stops at the first [str] chunk. *)
Lemma feed_bytes_then_text (h : hash_state) (cs : list bytes) (t : str)
    (rest : list chunk) :
  utils.feed h ((Bytes <$> cs) ++ Text t :: rest) = Raise TypeError.
Proof.
  revert h. induction cs as [|c cs IH]; intros h; simpl; [done|]. apply IH.
Qed.

End text_chunks.

(** [hash_chunks] raises a [TypeError] whenever the iterator yields a
    [str], whatever bytes came before it and whatever comes after: so it
    does on the example of its docstring. *)
Theorem hash_chunks_rejects_text {digestmod : HashAlgorithm}
    (cs : list bytes) (t : str) (rest : list chunk) :
  utils.hash_chunks ((Bytes <$> cs) ++ Text t :: rest) = Raise TypeError /\
  utils.hash_chunks [Text (lit "a"); Text (lit "b"); Text (lit "c")]
  = Raise TypeError.
Proof.
  split.
  - unfold utils.hash_chunks. by rewrite feed_bytes_then_text.
  - reflexivity.
Qed.

(** [hash_filename] reads the file in text mode.  It returns only when
    the first read returns nothing, and then with the digest of the empty
    input (the value in its docstring); it raises the exception of the
    text layer when the first read fails, and a [TypeError] as soon as a
    read has returned something.  The machine is left as it was. *)
Theorem hash_filename_reads_text (filename : str) (chunk_size : Z)
    (s : fs) (l : loc) (content : bytes) :
  Fs.resolve s filename = Ok l ->
  nodes s !! l = Some (Reg content) ->
  utils.hash_filename (digestmod := sha1) filename chunk_size s
  = (match text_read s content
             (if chunk_size =? 0 then DEFAULT_CHUNK_SIZE else chunk_size) with
     | ([], None) | ([] :: _, _) =>
         Ok (lit "da39a3ee5e6b4b0d3255bfef95601890afd80709")
     | ([], Some e) => Raise e
     | ((_ :: _) :: _, _) => Raise TypeError
     end, s).
Proof.
  intros Hres Hreg.
  rewrite (hash_filename_text_mode filename chunk_size s l content)
    by done.
  f_equal. unfold utils.text_chunks.
  destruct (text_read s content _) as [[|[|c t] reads] failure]; simpl.
  - by destruct failure.
  - reflexivity.
  - by destruct (utils.chunks_loop reads failure).
Qed.

Lemma hash_filename_reads_text_witness :
  utils.hash_filename (digestmod := sha1) (lit "/tmp/upload")
    DEFAULT_CHUNK_SIZE example_fs_spooled
  = (Raise TypeError, example_fs_spooled).
Proof.
  exact (hash_filename_reads_text (lit "/tmp/upload") DEFAULT_CHUNK_SIZE
           example_fs_spooled [lit "tmp"; lit "upload"]
           (list_byte_of_string "abc") eq_refl eq_refl).
Defined.

(** ** Shard directories *)

Section shard_prefix.
Implicit Types (s : str) (w d : Z).

Lemma shard_directories s w d (r : bool) :
  removelast (utils.shard s w d r)
  = map (fun i => Py.slice s (w * i) (w * (i + 1))) (Py.range d).
Proof. unfold utils.shard. apply removelast_last. Qed.

(** A segment is cut out of the first [w * d] characters. *)
Lemma segment_of_prefix s w d (i : Z) :
  0 <= w -> 0 <= i < d ->
  Py.slice s (w * i) (w * (i + 1))
  = Py.slice (take (Z.to_nat (w * d)) s) (w * i) (w * (i + 1)).
Proof.
  intros Hw Hi. rewrite !slice_nonneg by nia.
  rewrite !take_drop_commute, take_take. do 2 f_equal. nia.
Qed.

End shard_prefix.

(** Two strings are sharded into the same directories exactly when they
    agree on their first [width * depth] characters. *)
Theorem shard_directories_prefix (s1 s2 : str) (w d : Z) (r : bool) :
  0 <= w -> 0 <= d ->
  removelast (utils.shard s1 w d r) = removelast (utils.shard s2 w d r) <->
  take (Z.to_nat (w * d)) s1 = take (Z.to_nat (w * d)) s2.
Proof.
  intros Hw Hd. rewrite !shard_directories. unfold Py.range. split.
  - intros Heq. apply (f_equal (@concat ascii)) in Heq.
    replace d with (Z.of_nat (Z.to_nat d)) in Heq by lia.
    rewrite !concat_segments in Heq by done.
    by replace (Z.of_nat (Z.to_nat d)) with d in Heq by lia.
  - intros Heq. apply map_ext_in. intros i Hi.
    apply list_elem_of_In, elem_of_seqZ in Hi.
    rewrite (segment_of_prefix s1 w d), (segment_of_prefix s2 w d) by lia.
    by rewrite Heq.
Qed.

Lemma shard_directories_prefix_witness :
  removelast (utils.shard (lit "1f09d30c") 2 2 false)
  = removelast (utils.shard (lit "1f09aaaa") 2 2 false).
Proof.
  apply (shard_directories_prefix (lit "1f09d30c") (lit "1f09aaaa") 2 2 false);
    [discriminate | discriminate | reflexivity].
Defined.
